(** * Offline Cache Controller (sw.js): model and verification

    The service worker of the site registers three listeners (install,
    activate, fetch).  They are embedded here as programs of a small
    promise monad over a world made of the network, the origin's cache
    storage and a trace of the platform calls performed so far.

    The listeners are translated from [src/sw.js].  What they call
    ([caches.open], [cache.addAll], [cache.match], [caches.keys],
    [caches.delete], [fetch]) belongs to the browser; it is modelled after
    the Service Worker specification, restricted to the data model used
    here: a request is a method and a URL, a response a status and a body
    (no [Vary] negotiation, no URL fragments). *)

From stdpp Require Import base strings list gmap fin_maps.

Open Scope string_scope.
Open Scope list_scope.

(** ** Data model *)

Record URL := mkURL {
  origin : string;
  pathname : string;
  search : string   (* the query string, empty when the URL has none *)
}.

Record Request := mkRequest {
  method : string;
  url : URL
}.

Record Response := mkResponse {
  status : nat;
  body : string
}.

#[global] Instance URL_eq_dec : EqDecision URL.
Proof. solve_decision. Defined.

#[global] Instance Request_eq_dec : EqDecision Request.
Proof. solve_decision. Defined.

#[global] Instance Response_eq_dec : EqDecision Response.
Proof. solve_decision. Defined.

(** A cache is the platform's request/response list: ordered, searched from
    the front.  The cache storage maps a cache name to its cache. *)
Abbreviation Cache := (list (Request * Response)).
Abbreviation CacheStorage := (gmap string Cache).

(** Options of [cache.match]; the source only ever sets [ignoreSearch]. *)
Record CacheQueryOptions := mkOptions { ignoreSearch : bool }.

Definition no_options : CacheQueryOptions := {| ignoreSearch := false |}.

(** Reasons a promise of the platform rejects with. *)
Inductive DOMError := TypeError | InvalidStateError.

Inductive Settled (A : Type) :=
| Fulfilled (a : A)
| Rejected (e : DOMError).
Arguments Fulfilled {A} a.
Arguments Rejected {A} e.

(** Platform calls, recorded in the order they are issued. *)
Inductive Effect :=
| Fetch (r : Request)
| CachesOpen (name : string)
| CachesKeys
| CachesDelete (name : string)
| CacheMatch (name : string) (r : Request) (o : CacheQueryOptions)
| CachePut (name : string) (r : Request)
| SkipWaiting
| ClientsClaim.

(** [network r] is the answer of the origin to [r]; [None] is a
    transport-level failure (no response at all). *)
Record World := mkWorld {
  network : Request → option Response;
  caches : gmap string Cache;
  trace : list Effect
}.

Definition log (e : Effect) (w : World) : World :=
  {| network := network w; caches := caches w; trace := trace w ++ [e] |}.

Definition set_caches (m : gmap string Cache) (w : World) : World :=
  {| network := network w; caches := m; trace := trace w |}.

(** ** The promise monad *)

Definition Promise (A : Type) : Type := World → Settled A * World.

Definition resolve {A} (a : A) : Promise A := λ w, (Fulfilled a, w).

Definition reject {A} (e : DOMError) : Promise A := λ w, (Rejected e, w).

(** [await p] followed by [k]: a rejection skips the continuation. *)
Definition then_ {A B} (k : A → Promise B) (p : Promise A) : Promise B :=
  λ w, match p w with
       | (Fulfilled a, w') => k a w'
       | (Rejected e, w') => (Rejected e, w')
       end.

(** [try { p } catch (e) { h }] *)
Definition try_catch {A} (p : Promise A) (h : DOMError → Promise A) : Promise A :=
  λ w, match p w with
       | (Fulfilled a, w') => (Fulfilled a, w')
       | (Rejected e, w') => h e w'
       end.

#[global] Instance Promise_ret : MRet Promise := @resolve.
#[global] Instance Promise_bind : MBind Promise := @then_.

(** [Promise.all] over promises issued in list order. *)
Fixpoint Promise_all {A} (ps : list (Promise A)) : Promise (list A) :=
  match ps with
  | [] => resolve []
  | p :: ps' =>
      a ← p;
      rest ← Promise_all ps';
      resolve (a :: rest)
  end.

(** ** The platform: fetch and the Cache API *)

Definition strip_search (u : URL) : URL :=
  {| origin := origin u; pathname := pathname u; search := "" |}.

Definition query_url (o : CacheQueryOptions) (u : URL) : URL :=
  if ignoreSearch o then strip_search u else u.

(** "Request matches cached item": without [ignoreMethod] only GET requests
    match, and the URLs are compared, without their query strings under
    [ignoreSearch]. *)
Definition request_matches (o : CacheQueryOptions) (query cached : Request) : bool :=
  bool_decide (method query = "GET") &&
  bool_decide (method cached = "GET") &&
  bool_decide (query_url o (url query) = query_url o (url cached)).

(** "Query cache": the matching entries, in cache order. *)
Definition query_cache (o : CacheQueryOptions) (query : Request) (c : Cache) : Cache :=
  filter (λ e, request_matches o query e.1) c.

Definition match_first (o : CacheQueryOptions) (query : Request) (c : Cache) : option Response :=
  snd <$> head (query_cache o query c).

(** "Batch cache operations" for a list of put operations: an operation
    that matches one already added in the same batch throws; otherwise the
    entries it matches are removed and the new entry is appended. *)
Fixpoint batch_put (ops added : Cache) (c : Cache) : option Cache :=
  match ops with
  | [] => Some c
  | (rq, rs) :: ops' =>
      match query_cache no_options rq added with
      | [] =>
          batch_put ops' (added ++ [(rq, rs)])
            (filter (λ e, ¬ request_matches no_options rq e.1) c ++ [(rq, rs)])
      | _ :: _ => None
      end
  end.

(** An ok status, as [cache.addAll] requires of every response (206 is
    refused as well). *)
Definition ok_status (r : Response) : bool :=
  bool_decide (200 ≤ status r ≤ 299)%nat && bool_decide (status r ≠ 206%nat).

Definition fetch_ok (net : Request → option Response) (r : Request) : option Response :=
  match net r with
  | Some rs => if ok_status rs then Some rs else None
  | None => None
  end.

Definition cache_of (m : gmap string Cache) (name : string) : Cache :=
  default [] (m !! name).

Definition fetch (r : Request) : Promise Response :=
  λ w, match network w r with
       | Some rs => (Fulfilled rs, log (Fetch r) w)
       | None => (Rejected TypeError, log (Fetch r) w)
       end.

(** [caches.open(name)]: creates the cache when there is none of that name.
    The handle of an open cache is its name. *)
Definition caches_open (name : string) : Promise string :=
  λ w, let w' := log (CachesOpen name) w in
       match caches w !! name with
       | Some _ => (Fulfilled name, w')
       | None => (Fulfilled name, set_caches (<[name := []]> (caches w)) w')
       end.

Definition caches_keys : Promise (list string) :=
  λ w, (Fulfilled (map_to_list (caches w)).*1, log CachesKeys w).

Definition caches_delete (name : string) : Promise bool :=
  λ w, let w' := log (CachesDelete name) w in
       match caches w !! name with
       | Some _ => (Fulfilled true, set_caches (delete name (caches w)) w')
       | None => (Fulfilled false, w')
       end.

Definition cache_match (cache : string) (r : Request) (o : CacheQueryOptions)
  : Promise (option Response) :=
  λ w, (Fulfilled (match_first o r (cache_of (caches w) cache)),
        log (CacheMatch cache r o) w).

(** [cache.addAll(requests)]: every request is fetched; if a fetch fails or
    its response is not ok the promise rejects and the cache is left as it
    was, otherwise all the responses are stored in one batch. *)
Definition cache_addAll (cache : string) (requests : list Request) : Promise unit :=
  λ w, let w1 := foldl (λ w r, log (Fetch r) w) w requests in
       match mapM (fetch_ok (network w)) requests with
       | None => (Rejected TypeError, w1)
       | Some responses =>
           match batch_put (zip requests responses) [] (cache_of (caches w) cache) with
           | None => (Rejected InvalidStateError, w1)
           | Some c' =>
               (Fulfilled (),
                set_caches (alter (λ _, c') cache (caches w))
                  (foldl (λ w r, log (CachePut cache r) w) w1 requests))
           end
       end.

Definition skipWaiting : Promise unit := λ w, (Fulfilled (), log SkipWaiting w).

Definition clients_claim : Promise unit := λ w, (Fulfilled (), log ClientsClaim w).

(** ** The service worker (src/sw.js) *)

Definition CACHE_NAME : string := "ctc-static-v1".
Definition OFFLINE_URL : string := "/offline.html".
Definition CORE_ASSETS : list string :=
  ["/"; "/offline.html"; "/about/"; "/events/"; "/team/"].

(** What the fetch listener leaves to the platform: nothing when it returns
    without calling [respondWith], else the settled promise it passed. *)
Inductive FetchOutcome :=
| NotIntercepted
| RespondWith (p : Settled (option Response)).

Section ServiceWorker.

(** Origin of the worker's own location, against which the URL strings of
    the source are resolved. *)
Variable location_origin : string.

(** The request the platform builds from a URL string.  All the strings
    the source passes are absolute paths without query string. *)
Definition new_Request (path : string) : Request :=
  {| method := "GET";
     url := {| origin := location_origin; pathname := path; search := "" |} |}.

(** [self.addEventListener("install", ...)]: the promise given to
    [event.waitUntil]. *)
Definition on_install : Promise unit :=
  cache ← caches_open CACHE_NAME;
  cache_addAll cache (new_Request <$> CORE_ASSETS);;
  skipWaiting.

(** [self.addEventListener("activate", ...)] *)
Definition on_activate : Promise unit :=
  keys ← caches_keys;
  Promise_all (caches_delete <$> filter (λ k, k ≠ CACHE_NAME) keys);;
  clients_claim.

(** The async function given to [event.respondWith]. *)
Definition respond (req : Request) : Promise (option Response) :=
  try_catch
    (fresh ← fetch req;
     resolve (Some fresh))
    (λ e,
     cache ← caches_open CACHE_NAME;
     cached ← cache_match cache req {| ignoreSearch := true |};
     match cached with
     | Some r => resolve (Some r)
     | None => cache_match cache (new_Request OFFLINE_URL) {| ignoreSearch := true |}
     end).

(** [self.addEventListener("fetch", ...)] *)
Definition on_fetch (req : Request) (w : World) : FetchOutcome * World :=
  if decide (method req ≠ "GET") then (NotIntercepted, w)
  else let '(p, w') := respond req w in (RespondWith p, w').

End ServiceWorker.

(** ** The routing policy in the words of the specification

    The stored snapshot for a URL, ignoring its query string: the response of
    the first GET entry of the generation with the same origin and path. *)
Definition stored_ignoring_query (c : Cache) (u : URL) : option Response :=
  (λ ie : nat * (Request * Response), ie.2.2) <$>
  list_find (λ e : Request * Response,
               method e.1 = "GET" ∧
               origin (url e.1) = origin u ∧
               pathname (url e.1) = pathname u) c.

(** Step 2 then step 3 of the policy: the snapshot of the request, else that
    of the Offline Fallback Document. *)
Definition fallback_response (c : Cache) (u offline : URL) : option Response :=
  match stored_ignoring_query c u with
  | Some r => Some r
  | None => stored_ignoring_query c offline
  end.

(** The entries no request of a batch replaces. *)
Definition unmatched (reqs : list Request) (e : Request * Response) : Prop :=
  Forall (λ rq, ¬ request_matches no_options rq e.1) reqs.

#[global] Instance unmatched_dec reqs e : Decision (unmatched reqs e).
Proof. unfold unmatched. apply _. Defined.

(** The storage once [caches.open(name)] has run. *)
Definition opened (name : string) (m : gmap string Cache) : gmap string Cache :=
  match m !! name with
  | Some _ => m
  | None => <[name := []]> m
  end.

(** How often a request is a key of a cache. *)
Definition occurrences (r : Request) (c : Cache) : nat :=
  length (filter (λ e : Request * Response, e.1 = r) c).

(** Cache writes among platform calls. *)
Definition is_cache_write (e : Effect) : bool :=
  match e with
  | CachePut _ _ | CachesDelete _ => true
  | _ => false
  end.

(** The requests [cache.addAll(CORE_ASSETS)] issues. *)
Definition core_requests (o : string) : list Request :=
  new_Request o <$> CORE_ASSETS.

(** A generation once a batch of responses has been stored in it. *)
Definition installed (reqs : list Request) (resps : list Response) (c : Cache) : Cache :=
  filter (unmatched reqs) c ++ zip reqs resps.

(** ** Sample worlds

    A site, four states of its origin (answering every request, answering
    404 for [/team/], not answering for [/team/], unreachable) and a storage
    left by an earlier deployment. *)
Definition site : string := "https://ctc.example".

Definition origin_up : Request → option Response :=
  λ r, Some {| status := 200; body := pathname (url r) |}.

Definition origin_without_team : Request → option Response :=
  λ r, if bool_decide (pathname (url r) = "/team/")
       then Some {| status := 404; body := "Not Found" |}
       else origin_up r.

Definition origin_team_unreachable : Request → option Response :=
  λ r, if bool_decide (pathname (url r) = "/team/") then None else origin_up r.

Definition origin_down : Request → option Response := λ _, None.

Definition stale_storage : gmap string Cache :=
  {[ "ctc-static-v0" := [(new_Request site "/", mkResponse 200 "old home")];
     "ctc-fonts" := [] ]}.

(** The world once the worker has installed over [stale_storage], and once
    it has activated. *)
Definition installed_world : World :=
  (on_install site (mkWorld origin_up stale_storage [])).2.

Definition activated_world : World := (on_activate installed_world).2.

Definition GET (path query : string) : Request :=
  {| method := "GET";
     url := {| origin := site; pathname := path; search := query |} |}.

(** ** The life of an installed worker

    What can happen once the worker is installed: it is activated, a page
    issues a request, or the state of the network changes. *)
Inductive WorkerEvent :=
| Activate
| FetchEvent (req : Request)
| NetworkChange (net : Request → option Response).

Definition set_network (net : Request → option Response) (w : World) : World :=
  {| network := net; caches := caches w; trace := trace w |}.

Definition handle (o : string) (e : WorkerEvent) (w : World) : World :=
  match e with
  | Activate => (on_activate w).2
  | FetchEvent req => (on_fetch o req w).2
  | NetworkChange net => set_network net w
  end.

Definition run (o : string) (es : list WorkerEvent) (w : World) : World :=
  foldl (λ w e, handle o e w) w es.

(** A cache none of whose keys carries a query string. *)
Definition query_free (c : Cache) : Prop :=
  Forall (λ e : Request * Response, search (url e.1) = "") c.

(** * The header scripts

    The page the two header scripts act on: the class lists of the root and
    of the header element, and the attributes of the menu toggle and of the
    mobile menu.  Scroll offsets and sizes are whole numbers of CSS pixels.
    The page has the header, the toggle and the menu: without them the
    scripts return before they register a listener. *)
Record DOM := mkDOM {
  root_classList : gset string;
  header_classList : gset string;
  toggle_attributes : gmap string string;
  menu_attributes : gmap string string
}.

(** What the scripts read of the window; [window.pageYOffset] is an alias of
    [window.scrollY]. *)
Record Viewport := mkViewport {
  scrollY : Z;
  documentElement_scrollTop : Z;
  innerHeight : Z;
  innerWidth : Z;
  scrollHeight : Z
}.

(** [e.target]: null, or a node whose [closest] method, when it has one,
    tells whether an inclusive ancestor matches a selector. *)
Inductive EventTarget :=
| NoTarget
| Node (closest : option (string → bool)).

(** [a || b] on numbers. *)
Definition or_else (a b : Z) : Z := if decide (a = 0%Z) then b else a.

Definition classList_add (c : string) (l : gset string) : gset string := l ∪ {[c]}.
Definition classList_remove (c : string) (l : gset string) : gset string := l ∖ {[c]}.
Definition classList_toggle (c : string) (force : bool) (l : gset string) : gset string :=
  if force then classList_add c l else classList_remove c l.
Definition classList_contains (c : string) (l : gset string) : bool :=
  bool_decide (c ∈ l).

Definition set_header_classList (l : gset string) (d : DOM) : DOM :=
  {| root_classList := root_classList d;
     header_classList := l;
     toggle_attributes := toggle_attributes d;
     menu_attributes := menu_attributes d |}.

(** ** The mobile menu and the hiding header (src/header.js) *)
Module MobileNav.

Definition OPEN_CLASS : string := "ctc-mnav-open".

Record State := mkState {
  lastY : Z;
  ticking : bool
}.

Definition isOpen (d : DOM) : bool := classList_contains OPEN_CLASS (root_classList d).

Definition setOpen (open : bool) (d : DOM) : DOM :=
  {| root_classList := classList_toggle OPEN_CLASS open (root_classList d);
     header_classList := header_classList d;
     toggle_attributes :=
       <["aria-label" := if open then "Close menu" else "Open menu"]>
         (<["aria-expanded" := if open then "true" else "false"]>
            (toggle_attributes d));
     menu_attributes :=
       <["aria-hidden" := if open then "false" else "true"]> (menu_attributes d) |}.

(** [e.target && e.target.closest ? e.target.closest(sel) : null], as a
    truth value. *)
Definition closest_or_null (t : EventTarget) (sel : string) : bool :=
  match t with
  | Node (Some closest) => closest sel
  | _ => false
  end.

(** The click listener of the toggle. *)
Definition toggle_click (d : DOM) : DOM := setOpen (negb (isOpen d)) d.

(** The click listener of the menu. *)
Definition menu_click (t : EventTarget) (d : DOM) : DOM :=
  if closest_or_null t "a" then setOpen false d else d.

(** The keydown listener of the document. *)
Definition keydown (key : string) (d : DOM) : DOM :=
  if bool_decide (key = "Escape") then setOpen false d else d.

(** The click listener of the document. *)
Definition document_click (t : EventTarget) (d : DOM) : DOM :=
  if negb (isOpen d) then d
  else match t with
       | NoTarget => d
       | Node None => setOpen false d
       | Node (Some closest) =>
           if closest "#ctcHeader" || closest "#ctcMobileMenu" then d
           else setOpen false d
       end.

Definition show_header (d : DOM) : DOM :=
  set_header_classList
    (classList_add "is-up" (classList_remove "is-down" (header_classList d))) d.

Definition hide_header (d : DOM) : DOM :=
  set_header_classList
    (classList_add "is-down" (classList_remove "is-up" (header_classList d))) d.

Definition onScroll (v : Viewport) (s : State) (d : DOM) : State * DOM :=
  if isOpen d then (s, d)
  else
    let y := or_else (scrollY v) 0 in
    let delta := Z.abs (y - lastY s) in
    let s' := {| lastY := y; ticking := ticking s |} in
    if bool_decide (y ≤ 8)%Z then (s', show_header d)
    else if bool_decide (delta < 10)%Z then (s', d)
    else if bool_decide (y > lastY s)%Z then (s', hide_header d)
    else (s', show_header d).

(** The resize listener. *)
Definition resize (v : Viewport) (d : DOM) : DOM :=
  if bool_decide (innerWidth v >= 900)%Z then setOpen false d else d.

(** The page with the script's variables and the callbacks it has queued
    with [requestAnimationFrame]. *)
Record Page := mkPage {
  dom : DOM;
  state : State;
  frames : nat
}.

(** The callback given to [requestAnimationFrame]. *)
Definition frame_callback (v : Viewport) (p : Page) : Page :=
  let '(s, d) := onScroll v (state p) (dom p) in
  {| dom := d; state := {| lastY := lastY s; ticking := false |}; frames := frames p |}.

(** The scroll listener. *)
Definition scroll (p : Page) : Page :=
  if negb (ticking (state p))
  then {| dom := dom p;
          state := {| lastY := lastY (state p); ticking := true |};
          frames := S (frames p) |}
  else p.

(** The script body: the variables are initialised and the header is shown. *)
Definition init (v : Viewport) (d : DOM) : Page :=
  {| dom := set_header_classList (classList_add "is-up" (header_classList d)) d;
     state := {| lastY := or_else (scrollY v) 0; ticking := false |};
     frames := 0 |}.

Inductive Event :=
| ToggleClick
| MenuClick (t : EventTarget)
| KeyDown (key : string)
| DocumentClick (t : EventTarget)
| Scroll
| AnimationFrame (v : Viewport)
| Resize (v : Viewport).

Definition on_dom (f : DOM → DOM) (p : Page) : Page :=
  {| dom := f (dom p); state := state p; frames := frames p |}.

(** An animation frame runs the callbacks queued before it. *)
Definition dispatch (e : Event) (p : Page) : Page :=
  match e with
  | ToggleClick => on_dom toggle_click p
  | MenuClick t => on_dom (menu_click t) p
  | KeyDown key => on_dom (keydown key) p
  | DocumentClick t => on_dom (document_click t) p
  | Scroll => scroll p
  | AnimationFrame v =>
      let p' := Nat.iter (frames p) (frame_callback v) p in
      {| dom := dom p'; state := state p'; frames := 0 |}
  | Resize v => on_dom (resize v) p
  end.

Definition run (es : list Event) (p : Page) : Page :=
  foldl (λ p e, dispatch e p) p es.

(** The toggle and the menu say what the root class says. *)
Definition aria_consistent (d : DOM) : Prop :=
  toggle_attributes d !! "aria-expanded" = Some (if isOpen d then "true" else "false") ∧
  toggle_attributes d !! "aria-label" = Some (if isOpen d then "Close menu" else "Open menu") ∧
  menu_attributes d !! "aria-hidden" = Some (if isOpen d then "false" else "true").

(** The header carries exactly one of its two classes. *)
Definition one_direction (d : DOM) : Prop :=
  "is-up" ∈ header_classList d ↔ "is-down" ∉ header_classList d.

(** The events of scrolling, as opposed to those of the menu. *)
Definition scrolling (e : Event) : bool :=
  match e with
  | Scroll | AnimationFrame _ => true
  | _ => false
  end.

(** A callback is queued exactly while [ticking] is set. *)
Definition throttled (p : Page) : Prop :=
  frames p = if ticking (state p) then 1 else 0.

(** [onScroll] at successive positions of the window. *)
Definition scrolls (vs : list Viewport) (sd : State * DOM) : State * DOM :=
  foldl (λ sd v, onScroll v sd.1 sd.2) sd vs.

(** Successive positions, each less than ten pixels from the one before,
    [y0] being the first one's predecessor. *)
Fixpoint slow (y0 : Z) (vs : list Viewport) : Prop :=
  match vs with
  | [] => True
  | v :: vs' =>
      (Z.abs (or_else (scrollY v) 0 - y0) < 10)%Z ∧
      slow (or_else (scrollY v) 0) vs'
  end.

End MobileNav.

(** ** The sticky header (second script of src/sw.js) *)
Module StickyHeader.

Record State := mkState {
  lastScrollTop : Z;
  ticking : bool
}.

Definition delta : Z := 5.

Definition updateHeader (headerHeight : Z) (v : Viewport) (s : State) (d : DOM)
  : State * DOM :=
  let scrollTop := or_else (scrollY v) (documentElement_scrollTop v) in
  let isMobileOpen := classList_contains "ctc-mnav-open" (root_classList d) in
  if isMobileOpen then ({| lastScrollTop := lastScrollTop s; ticking := false |}, d)
  else if bool_decide (Z.abs (lastScrollTop s - scrollTop) ≤ delta)%Z
  then ({| lastScrollTop := lastScrollTop s; ticking := false |}, d)
  else
    let d' :=
      if bool_decide (scrollTop > lastScrollTop s)%Z &&
         bool_decide (scrollTop > headerHeight)%Z
      then set_header_classList
             (classList_add "nav-down"
                (classList_remove "nav-up" (header_classList d))) d
      else if bool_decide (scrollTop + innerHeight v < scrollHeight v)%Z
      then set_header_classList
             (classList_add "nav-up"
                (classList_remove "nav-down" (header_classList d))) d
      else d in
    ({| lastScrollTop := scrollTop; ticking := false |}, d').

Record Page := mkPage {
  dom : DOM;
  state : State;
  headerHeight : Z;   (* [header.offsetHeight] when the script started *)
  frames : nat
}.

(** The scroll listener. *)
Definition scroll (p : Page) : Page :=
  if negb (ticking (state p))
  then {| dom := dom p;
          state := {| lastScrollTop := lastScrollTop (state p); ticking := true |};
          headerHeight := headerHeight p;
          frames := S (frames p) |}
  else p.

(** [updateHeader], as the callback of an animation frame. *)
Definition frame_callback (v : Viewport) (p : Page) : Page :=
  let '(s, d) := updateHeader (headerHeight p) v (state p) (dom p) in
  {| dom := d; state := s; headerHeight := headerHeight p; frames := frames p |}.

(** The DOMContentLoaded listener, on a page that has the header. *)
Definition init (offsetHeight : Z) (d : DOM) : Page :=
  {| dom := set_header_classList (classList_add "nav-up" (header_classList d)) d;
     state := {| lastScrollTop := 0; ticking := false |};
     headerHeight := offsetHeight;
     frames := 0 |}.

Inductive Event :=
| Scroll
| AnimationFrame (v : Viewport).

(** An animation frame runs the callbacks queued before it. *)
Definition dispatch (e : Event) (p : Page) : Page :=
  match e with
  | Scroll => scroll p
  | AnimationFrame v =>
      let p' := Nat.iter (frames p) (frame_callback v) p in
      {| dom := dom p'; state := state p';
         headerHeight := headerHeight p'; frames := 0 |}
  end.

Definition run (es : list Event) (p : Page) : Page :=
  foldl (λ p e, dispatch e p) p es.

Definition one_direction (d : DOM) : Prop :=
  "nav-up" ∈ header_classList d ↔ "nav-down" ∉ header_classList d.

(** A callback is queued exactly while [ticking] is set. *)
Definition throttled (p : Page) : Prop :=
  frames p = if ticking (state p) then 1 else 0.

(** The offset [updateHeader] reads. *)
Definition position (v : Viewport) : Z :=
  or_else (scrollY v) (documentElement_scrollTop v).

(** [updateHeader] at successive positions of the window. *)
Definition updates (h : Z) (vs : list Viewport) (sd : State * DOM) : State * DOM :=
  foldl (λ sd v, updateHeader h v sd.1 sd.2) sd vs.

End StickyHeader.

(** The page once [updateHeader] has hidden, or shown, the header. *)
Definition sticky_hidden (d : DOM) : DOM :=
  set_header_classList
    (classList_add "nav-down" (classList_remove "nav-up" (header_classList d))) d.

Definition sticky_shown (d : DOM) : DOM :=
  set_header_classList
    (classList_add "nav-up" (classList_remove "nav-down" (header_classList d))) d.

(** ** Sample pages

    A page with the menu closed, the same with the menu open, and the window
    scrolled to a given offset. *)
Definition closed_page : DOM :=
  {| root_classList := {["no-js"]};
     header_classList := {["ctc-header"]};
     toggle_attributes :=
       <["aria-label" := "Open menu"]> {["aria-expanded" := "false"]};
     menu_attributes := {["aria-hidden" := "true"]} |}.

Definition open_page : DOM := MobileNav.setOpen true closed_page.

Definition at_offset (y : Z) : Viewport :=
  {| scrollY := y;
     documentElement_scrollTop := y;
     innerHeight := 800;
     innerWidth := 400;
     scrollHeight := 3000 |}.

(** ** Facts about the platform model *)

Lemma World_eta w : mkWorld (network w) (caches w) (trace w) = w.
Proof. by destruct w. Qed.

Lemma foldl_log (f : Request → Effect) l w :
  foldl (λ w r, log (f r) w) w l =
  mkWorld (network w) (caches w) (trace w ++ (f <$> l)).
Proof.
  revert w. induction l as [|r l IH]; intros w; simpl.
  - by rewrite app_nil_r, World_eta.
  - rewrite IH. simpl. by rewrite <- app_assoc.
Qed.

Lemma cache_of_opened name m name' :
  cache_of (opened name m) name' = cache_of m name'.
Proof.
  unfold opened, cache_of. destruct (m !! name) eqn:E; [done|].
  destruct (decide (name = name')) as [->|Hne].
  - by rewrite lookup_insert_eq, E.
  - by rewrite lookup_insert_ne.
Qed.

Lemma opened_lookup_Some name m name' c :
  m !! name' = Some c → opened name m !! name' = Some c.
Proof.
  intros H. unfold opened. destruct (m !! name) eqn:E; [done|].
  rewrite lookup_insert_ne; [done|]. congruence.
Qed.

Lemma opened_is_Some name m : is_Some (m !! name) → opened name m = m.
Proof. intros [c Hc]. unfold opened. by rewrite Hc. Qed.

Lemma alter_opened name c (m : gmap string Cache) :
  alter (λ _, c) name (opened name m) = <[name := c]> m.
Proof.
  apply map_eq. intros k. unfold opened.
  destruct (decide (name = k)) as [->|Hne].
  - rewrite lookup_alter_eq, lookup_insert_eq.
    destruct (m !! k) eqn:E; [by rewrite E|by rewrite lookup_insert_eq].
  - rewrite lookup_alter_ne, lookup_insert_ne by done.
    destruct (m !! name); [done|by rewrite lookup_insert_ne].
Qed.

Lemma caches_open_eq name w :
  caches_open name w =
  (Fulfilled name,
   mkWorld (network w) (opened name (caches w)) (trace w ++ [CachesOpen name])).
Proof. unfold caches_open, opened. by destruct (caches w !! name). Qed.

(** *** Matching *)

Lemma request_matches_no_options q e :
  request_matches no_options q e = true ↔
  method q = "GET" ∧ method e = "GET" ∧ url q = url e.
Proof.
  unfold request_matches, query_url. simpl.
  rewrite !andb_true_iff, !bool_decide_eq_true. tauto.
Qed.

Lemma request_matches_ignoreSearch q e :
  request_matches {| ignoreSearch := true |} q e = true ↔
  method q = "GET" ∧ method e = "GET" ∧
  origin (url q) = origin (url e) ∧ pathname (url q) = pathname (url e).
Proof.
  unfold request_matches, query_url, strip_search. simpl.
  rewrite !andb_true_iff, !bool_decide_eq_true.
  split.
  - intros [[Hq He] Hu]. by simplify_eq.
  - intros (? & ? & -> & ->). done.
Qed.

Lemma match_first_is_Some o q (c : Cache) e :
  e ∈ c → request_matches o q e.1 = true → is_Some (match_first o q c).
Proof.
  intros Hin Hm. unfold match_first, query_cache.
  destruct (filter _ c) as [|x l] eqn:E.
  - exfalso. eapply (filter_nil_not_elem_of _ c e); eauto.
    by apply Is_true_true.
  - simpl. eauto.
Qed.

Lemma match_first_stored q (c : Cache) :
  method q = "GET" →
  match_first {| ignoreSearch := true |} q c = stored_ignoring_query c (url q).
Proof.
  intros Hq. unfold match_first, query_cache, stored_ignoring_query.
  induction c as [|e c IH]; [done|].
  rewrite filter_cons. simpl.
  destruct (decide (request_matches _ q e.1)) as [Hm|Hm].
  - apply Is_true_true, request_matches_ignoreSearch in Hm.
    destruct Hm as (_ & ? & ? & ?).
    rewrite decide_True by done. done.
  - rewrite decide_False.
    + rewrite IH. by destruct (list_find _ c) as [[? ?]|].
    + intros (? & ? & ?). apply Hm, Is_true_true, request_matches_ignoreSearch.
      done.
Qed.

(** *** Batches of puts *)

Lemma query_cache_fresh rq (added : Cache) :
  url rq ∉ url <$> added.*1 → query_cache no_options rq added = [].
Proof.
  intros Hfresh. unfold query_cache.
  induction added as [|e added IH]; [done|].
  rewrite filter_cons_False.
  - apply IH. intros Hin. apply Hfresh. simpl. by right.
  - intros Hm. apply Is_true_true, request_matches_no_options in Hm.
    destruct Hm as (_ & _ & Hu). apply Hfresh. simpl. rewrite Hu. by left.
Qed.

Lemma filter_unmatched_fresh rq (added : Cache) :
  url rq ∉ url <$> added.*1 →
  filter (λ e, ¬ request_matches no_options rq e.1) added = added.
Proof.
  intros Hfresh. induction added as [|e added IH]; [done|].
  rewrite filter_cons_True.
  - f_equal. apply IH. intros Hin. apply Hfresh. simpl. by right.
  - intros Hm. apply Is_true_true, request_matches_no_options in Hm.
    destruct Hm as (_ & _ & Hu). apply Hfresh. simpl. rewrite Hu. by left.
Qed.

Lemma filter_unmatched_cons rq reqs (c : Cache) :
  filter (unmatched reqs) (filter (λ e, ¬ request_matches no_options rq e.1) c) =
  filter (unmatched (rq :: reqs)) c.
Proof.
  rewrite list_filter_filter. apply list_filter_iff.
  intros e. unfold unmatched. rewrite Forall_cons. tauto.
Qed.

(** A batch whose requests have pairwise distinct URLs goes through: what it
    does not replace stays in place, in order, and the batch follows. *)
Lemma batch_put_distinct (ops : Cache) : ∀ added c0 : Cache,
  NoDup (url <$> (added ++ ops).*1) →
  batch_put ops added (c0 ++ added) =
  Some (filter (unmatched ops.*1) c0 ++ added ++ ops).
Proof.
  induction ops as [|[rq rs] ops IH]; intros added c0 Hnd.
  - simpl. rewrite app_nil_r. f_equal. f_equal.
    symmetry. induction c0 as [|e c0 IHc]; [done|].
    rewrite filter_cons_True; [by f_equal|]. constructor.
  - assert (Hfresh : url rq ∉ url <$> added.*1).
    { rewrite !fmap_app in Hnd. apply NoDup_app in Hnd as (_ & Hdisj & _).
      intros Hin. apply (Hdisj _ Hin). simpl. by left. }
    cbn [batch_put]. rewrite query_cache_fresh by done.
    rewrite filter_app, (filter_unmatched_fresh rq added) by done.
    rewrite <- (app_assoc _ added). rewrite IH.
    + rewrite filter_unmatched_cons. by rewrite <- (app_assoc added).
    + by rewrite <- app_assoc.
Qed.

Lemma zip_elem_of_l {A B} (P : A → B → Prop) (l : list A) (k : list B) x :
  Forall2 P l k → x ∈ l → ∃ y, (x, y) ∈ zip l k ∧ P x y.
Proof.
  induction 1 as [|a b l k Hab _ IH]; intros Hin.
  - by apply elem_of_nil in Hin.
  - apply elem_of_cons in Hin as [->|Hin].
    + exists b. split; [by left|done].
    + destruct (IH Hin) as (y & ? & ?). exists y. split; [by right|done].
Qed.

Lemma zip_elem_of_fst {A B} (l : list A) (k : list B) x y :
  (x, y) ∈ zip l k → x ∈ l.
Proof.
  revert k. induction l as [|a l IH]; intros [|b k] Hin; simpl in Hin;
    try by apply elem_of_nil in Hin.
  apply elem_of_cons in Hin as [Heq|Hin].
  - simplify_eq. by left.
  - right. by eapply IH.
Qed.

(** ** The install listener *)

Lemma core_requests_NoDup o : NoDup (url <$> core_requests o).
Proof.
  unfold core_requests. rewrite <- list_fmap_compose.
  apply NoDup_fmap_2.
  - intros p q Hpq. by simplify_eq/=.
  - by apply (bool_decide_unpack _).
Qed.

Lemma core_requests_GET o rq : rq ∈ core_requests o → method rq = "GET".
Proof.
  unfold core_requests. intros Hin.
  apply list_elem_of_fmap in Hin as (p & -> & _). done.
Qed.

Lemma on_install_eq o w :
  on_install o w =
  let reqs := core_requests o in
  let tr := trace w ++ [CachesOpen CACHE_NAME] ++ (Fetch <$> reqs) in
  match mapM (fetch_ok (network w)) reqs with
  | None =>
      (Rejected TypeError,
       mkWorld (network w) (opened CACHE_NAME (caches w)) tr)
  | Some resps =>
      (Fulfilled (),
       mkWorld (network w)
         (<[CACHE_NAME := installed reqs resps (cache_of (caches w) CACHE_NAME)]>
            (caches w))
         (tr ++ (CachePut CACHE_NAME <$> reqs) ++ [SkipWaiting]))
  end.
Proof.
  unfold on_install. fold (core_requests o).
  generalize (core_requests_NoDup o). generalize (core_requests o) as reqs.
  intros reqs Hnd. cbv zeta.
  unfold mbind, Promise_bind, then_. rewrite caches_open_eq.
  unfold cache_addAll. cbn [network caches trace].
  destruct (mapM _ reqs) as [resps|] eqn:Hfetch.
  - pose proof (length_mapM _ _ _ Hfetch) as Hlen.
    rewrite cache_of_opened.
    pose proof (batch_put_distinct (zip reqs resps) []
                  (cache_of (caches w) CACHE_NAME)) as Hput.
    rewrite app_nil_r, app_nil_l, fst_zip in Hput by lia.
    rewrite (Hput Hnd). rewrite !foldl_log.
    unfold skipWaiting, log, set_caches. cbn [network caches trace].
    rewrite alter_opened. unfold installed.
    by rewrite <- !app_assoc.
  - rewrite foldl_log. cbn [network caches trace].
    by rewrite <- app_assoc.
Qed.

(** ** The activate listener *)

Lemma caches_delete_eq name w :
  caches_delete name w =
  (Fulfilled (bool_decide (is_Some (caches w !! name))),
   mkWorld (network w) (delete name (caches w)) (trace w ++ [CachesDelete name])).
Proof.
  unfold caches_delete, set_caches, log. cbn [network caches trace].
  destruct (caches w !! name) eqn:E.
  - by rewrite bool_decide_eq_true_2.
  - rewrite bool_decide_eq_false_2 by (by intros [? ?]).
    by rewrite delete_id.
Qed.

Lemma Promise_all_delete names : ∀ w, ∃ deleted,
  Promise_all (caches_delete <$> names) w =
  (Fulfilled deleted,
   mkWorld (network w) (foldl (λ m k, delete k m) (caches w) names)
     (trace w ++ (CachesDelete <$> names))).
Proof.
  induction names as [|k names IH]; intros w.
  - exists []. simpl. unfold resolve. by rewrite app_nil_r, World_eta.
  - cbn [fmap list_fmap Promise_all]. unfold mbind, Promise_bind, then_.
    rewrite caches_delete_eq.
    destruct (IH (mkWorld (network w) (delete k (caches w))
                    (trace w ++ [CachesDelete k]))) as [bs ->].
    eexists. unfold resolve. cbn [network caches trace foldl].
    by rewrite <- app_assoc.
Qed.

Lemma lookup_foldl_delete (m : gmap string Cache) names k :
  foldl (λ m k, delete k m) m names !! k =
  if decide (k ∈ names) then None else m !! k.
Proof.
  revert m. induction names as [|n names IH]; intros m; cbn [foldl].
  - rewrite decide_False; [done|]. apply not_elem_of_nil.
  - rewrite IH. destruct (decide (k = n)) as [->|Hne].
    + rewrite lookup_delete_eq. rewrite (decide_True _ _ (list_elem_of_here _ _)).
      by destruct (decide _).
    + rewrite lookup_delete_ne by done.
      destruct (decide (k ∈ names)) as [Hin|Hin].
      * by rewrite decide_True by (by right).
      * rewrite decide_False; [done|]. rewrite elem_of_cons. tauto.
Qed.

(** Activation keeps the cache named [CACHE_NAME], if there is one, and
    nothing else. *)
Lemma on_activate_eq w : ∃ tr,
  on_activate w =
  (Fulfilled (),
   mkWorld (network w)
     (match caches w !! CACHE_NAME with
      | Some c => {[CACHE_NAME := c]}
      | None => ∅
      end)
     (trace w ++ tr)).
Proof.
  unfold on_activate, mbind, Promise_bind, then_, caches_keys.
  set (names := filter _ _).
  destruct (Promise_all_delete names (log CachesKeys w)) as [bs ->].
  eexists ([CachesKeys] ++ (CachesDelete <$> names) ++ [ClientsClaim]).
  unfold clients_claim, log. cbn [network caches trace].
  rewrite <- !app_assoc. f_equal. f_equal.
  apply map_eq. intros k. rewrite lookup_foldl_delete.
  subst names. destruct (decide (k = CACHE_NAME)) as [->|Hne].
  - rewrite decide_False.
    + destruct (caches w !! CACHE_NAME) eqn:E;
        [by rewrite lookup_singleton_eq|by rewrite lookup_empty].
    + rewrite list_elem_of_filter. tauto.
  - assert (Hk : (match caches w !! CACHE_NAME with
                  | Some c => {[CACHE_NAME := c]}
                  | None => ∅
                  end : gmap string Cache) !! k = None).
    { destruct (caches w !! CACHE_NAME);
        [by rewrite lookup_singleton_ne|by rewrite lookup_empty]. }
    rewrite Hk. destruct (decide _) as [Hin|Hin]; [done|].
    destruct (caches w !! k) as [c|] eqn:E; [|done].
    exfalso. apply Hin. apply list_elem_of_filter. split; [done|].
    apply list_elem_of_fmap. exists (k, c). split; [done|].
    by apply elem_of_map_to_list.
Qed.

(** The listener creates nothing: without a cache of the current name the
    storage is empty after activation. *)
Lemma activation_without_generation w :
  caches w !! CACHE_NAME = None → caches (on_activate w).2 = ∅.
Proof.
  intros Hnone. destruct (on_activate_eq w) as [tr ->].
  cbn [snd caches]. by rewrite Hnone.
Qed.

(** ** The fetch listener *)

Lemma respond_online o req w rs :
  network w req = Some rs →
  respond o req w = (Fulfilled (Some rs), log (Fetch req) w).
Proof.
  intros Hnet. unfold respond, try_catch, mbind, Promise_bind, then_, fetch.
  by rewrite Hnet.
Qed.

Lemma respond_offline o req w :
  network w req = None →
  let c := cache_of (caches w) CACHE_NAME in
  let ignoring := {| ignoreSearch := true |} in
  respond o req w =
  (Fulfilled (match match_first ignoring req c with
              | Some r => Some r
              | None => match_first ignoring (new_Request o OFFLINE_URL) c
              end),
   mkWorld (network w) (opened CACHE_NAME (caches w))
     (trace w ++
      [Fetch req; CachesOpen CACHE_NAME; CacheMatch CACHE_NAME req ignoring] ++
      match match_first ignoring req c with
      | Some _ => []
      | None => [CacheMatch CACHE_NAME (new_Request o OFFLINE_URL) ignoring]
      end)).
Proof.
  intros Hnet c ignoring. subst c ignoring.
  unfold respond, try_catch, mbind, Promise_bind, then_, fetch.
  rewrite Hnet, caches_open_eq. unfold cache_match, log.
  cbn [network caches trace]. rewrite cache_of_opened.
  destruct (match_first _ req _) as [r|].
  - unfold resolve. by rewrite <- !app_assoc.
  - cbn [network caches trace]. rewrite cache_of_opened.
    by rewrite <- !app_assoc.
Qed.

Lemma not_GET_not_intercepted o req w :
  method req ≠ "GET" → on_fetch o req w = (NotIntercepted, w).
Proof. intros Hm. unfold on_fetch. by rewrite decide_True. Qed.

Lemma GET_intercepted o req w :
  method req = "GET" →
  on_fetch o req w = (RespondWith (respond o req w).1, (respond o req w).2).
Proof.
  intros Hm. unfold on_fetch. rewrite decide_False by (by intros ?).
  by destruct (respond o req w).
Qed.

(** The storage a listener of this worker leaves behind a fetch event. *)
Lemma on_fetch_caches o req w :
  caches (on_fetch o req w).2 = caches w ∨
  method req = "GET" ∧ network w req = None ∧
  caches (on_fetch o req w).2 = opened CACHE_NAME (caches w).
Proof.
  destruct (decide (method req = "GET")) as [Hm|Hm].
  - rewrite GET_intercepted by done. destruct (network w req) as [rs|] eqn:Hnet.
    + left. by rewrite (respond_online _ _ _ rs).
    + right. by rewrite respond_offline.
  - left. by rewrite not_GET_not_intercepted.
Qed.

Lemma stored_ignoring_query_search c og p q :
  stored_ignoring_query c (mkURL og p q) = stored_ignoring_query c (mkURL og p "").
Proof. reflexivity. Qed.

Lemma fallback_response_eq o req c :
  method req = "GET" →
  match match_first {| ignoreSearch := true |} req c with
  | Some r => Some r
  | None => match_first {| ignoreSearch := true |} (new_Request o OFFLINE_URL) c
  end = fallback_response c (url req) (url (new_Request o OFFLINE_URL)).
Proof.
  intros Hm. unfold fallback_response.
  by rewrite !match_first_stored.
Qed.

(** * The claims *)

(** C2: for an intercepted GET request to which the network gives a response,
    whatever its status, the fetch listener responds with that very response
    (and has done nothing but the fetch). *)
Theorem network_response_returned_verbatim o req w rs :
  method req = "GET" →
  network w req = Some rs →
  on_fetch o req w = (RespondWith (Fulfilled (Some rs)), log (Fetch req) w).
Proof.
  intros Hm Hnet. rewrite GET_intercepted by done.
  by rewrite (respond_online _ _ _ rs).
Qed.

(** C3: for an intercepted GET request whose network attempt fails, the
    listener responds with the snapshot stored in the current generation for
    the request's URL without its query string and, when there is none, with
    the one stored for [/offline.html], looked up the same way. *)
Theorem transport_failure_served_from_cache o req w :
  method req = "GET" →
  network w req = None →
  (on_fetch o req w).1 =
  RespondWith (Fulfilled (fallback_response (cache_of (caches w) CACHE_NAME)
                            (url req) (url (new_Request o OFFLINE_URL)))).
Proof.
  intros Hm Hnet. rewrite GET_intercepted by done.
  rewrite respond_offline by done. cbn [fst].
  by rewrite fallback_response_eq.
Qed.

(** C6: a request whose method is not GET is not intercepted, and handling it
    leaves the world as it was: no platform call, so no cache read or write,
    and the same storage. *)
Theorem non_GET_passes_through o req w :
  method req ≠ "GET" →
  on_fetch o req w = (NotIntercepted, w).
Proof. apply not_GET_not_intercepted. Qed.

(** C7, as amended: the fetch listener never stores, replaces or removes an
    entry: every generation has the same contents after the event as before,
    and no write is among its platform calls.  The storage itself is the
    same, except that [caches.open] on the fallback path creates the current
    generation, empty, when it is missing. *)
Theorem fetch_never_stores_a_response o req w :
  let w' := (on_fetch o req w).2 in
  (∀ name, cache_of (caches w') name = cache_of (caches w) name) ∧
  (caches w' = caches w ∨
   method req = "GET" ∧ network w req = None ∧
   caches w !! CACHE_NAME = None ∧
   caches w' = <[CACHE_NAME := []]> (caches w)) ∧
  ∃ calls, trace w' = trace w ++ calls ∧
           Forall (λ e, is_cache_write e = false) calls.
Proof.
  intros w'. subst w'. split; [|split].
  - intros name. destruct (on_fetch_caches o req w) as [->|(_ & _ & ->)];
      [done|apply cache_of_opened].
  - destruct (on_fetch_caches o req w) as [Heq|(Hm & Hnet & Heq)]; [by left|].
    destruct (caches w !! CACHE_NAME) as [c|] eqn:E.
    + left. rewrite Heq. apply opened_is_Some. by rewrite E.
    + right. rewrite Heq. unfold opened. by rewrite E.
  - destruct (decide (method req = "GET")) as [Hm|Hm].
    + rewrite GET_intercepted by done.
      destruct (network w req) as [rs|] eqn:Hnet.
      * rewrite (respond_online _ _ _ rs) by done.
        exists [Fetch req]. split; [done|]. by repeat constructor.
      * rewrite respond_offline by done. cbn [snd trace].
        eexists. split; [done|].
        destruct (match_first _ req _); by repeat constructor.
    + rewrite not_GET_not_intercepted by done.
      exists []. split; [by rewrite app_nil_r|constructor].
Qed.

(** C10: on a transport failure, when the current generation holds a snapshot
    neither for the request nor for [/offline.html] (query strings ignored),
    the promise given to [respondWith] is fulfilled with no response. *)
Theorem no_snapshot_resolves_undefined o req w :
  method req = "GET" →
  network w req = None →
  stored_ignoring_query (cache_of (caches w) CACHE_NAME) (url req) = None →
  stored_ignoring_query (cache_of (caches w) CACHE_NAME)
    (url (new_Request o OFFLINE_URL)) = None →
  (on_fetch o req w).1 = RespondWith (Fulfilled None).
Proof.
  intros Hm Hnet Hreq Hoff. rewrite GET_intercepted by done.
  rewrite respond_offline by done. cbn [fst].
  rewrite fallback_response_eq by done.
  unfold fallback_response. by rewrite Hreq, Hoff.
Qed.

(** ** What install leaves in the storage *)

Lemma install_fulfilled o w w1 :
  on_install o w = (Fulfilled (), w1) →
  ∃ resps,
    mapM (fetch_ok (network w)) (core_requests o) = Some resps ∧
    network w1 = network w ∧
    caches w1 =
      <[CACHE_NAME := installed (core_requests o) resps
                        (cache_of (caches w) CACHE_NAME)]> (caches w).
Proof.
  rewrite on_install_eq. cbv zeta.
  destruct (mapM _ _) as [resps|]; [|done].
  intros [= <-]. by exists resps.
Qed.

Lemma cache_of_insert name c (m : gmap string Cache) :
  cache_of (<[name := c]> m) name = c.
Proof. unfold cache_of. by rewrite lookup_insert_eq. Qed.

Lemma filter_none {A} (P : A → Prop) `{!∀ x, Decision (P x)} (l : list A) :
  (∀ x, x ∈ l → ¬ P x) → filter P l = [].
Proof.
  induction l as [|x l IH]; intros Hl; [done|].
  rewrite filter_cons_False by (apply Hl; by left).
  apply IH. intros y Hy. apply Hl. by right.
Qed.

Lemma matches_itself rq : method rq = "GET" → request_matches no_options rq rq.
Proof. intros Hm. apply Is_true_true, request_matches_no_options. done. Qed.

Lemma filter_unmatched_zip reqs (resps : list Response) :
  (∀ rq, rq ∈ reqs → method rq = "GET") →
  filter (unmatched reqs) (zip reqs resps) = [].
Proof.
  intros Hget. apply filter_none. intros [rq rs] Hin Hun.
  apply zip_elem_of_fst in Hin.
  unfold unmatched in Hun. rewrite Forall_forall in Hun.
  apply (Hun rq Hin). simpl. apply matches_itself. auto.
Qed.

Lemma installed_installed reqs resps resps' (c : Cache) :
  (∀ rq, rq ∈ reqs → method rq = "GET") →
  installed reqs resps' (installed reqs resps c) = installed reqs resps' c.
Proof.
  intros Hget. unfold installed.
  rewrite filter_app, filter_unmatched_zip, app_nil_r by done.
  f_equal. rewrite list_filter_filter. apply list_filter_iff. tauto.
Qed.

Lemma occurrences_zip (reqs : list Request) : ∀ (resps : list Response) rq,
  NoDup reqs → length reqs = length resps → rq ∈ reqs →
  occurrences rq (zip reqs resps) = 1.
Proof.
  unfold occurrences.
  induction reqs as [|a reqs IH]; intros [|b resps] rq Hnd Hlen Hin;
    try done; try by apply elem_of_nil in Hin.
  apply NoDup_cons in Hnd as [Ha Hnd]. simpl in Hlen.
  cbn [zip zip_with]. rewrite filter_cons. cbn [fst].
  destruct (decide (a = rq)) as [->|Hne].
  - rewrite filter_none; [done|].
    intros [x y] Hxy Heq. simpl in Heq. subst x.
    by apply zip_elem_of_fst in Hxy.
  - apply IH; [done|lia|].
    apply elem_of_cons in Hin as [->|Hin]; done.
Qed.

Lemma occurrences_installed reqs resps (c : Cache) rq :
  NoDup reqs → length reqs = length resps →
  rq ∈ reqs → method rq = "GET" →
  occurrences rq (installed reqs resps c) = 1.
Proof.
  intros Hnd Hlen Hin Hm.
  pose proof (occurrences_zip reqs resps rq Hnd Hlen Hin) as Hz.
  unfold occurrences, installed in *.
  rewrite filter_app, length_app, Hz.
  rewrite filter_none; [done|].
  intros e He Heq. apply list_elem_of_filter in He as [Hun _].
  unfold unmatched in Hun. rewrite Forall_forall in Hun.
  apply (Hun rq Hin). rewrite Heq. by apply matches_itself.
Qed.

Lemma install_stores_core o w w1 p q :
  on_install o w = (Fulfilled (), w1) →
  p ∈ CORE_ASSETS →
  is_Some (match_first {| ignoreSearch := true |}
             (mkRequest "GET" (mkURL o p q))
             (cache_of (caches w1) CACHE_NAME)).
Proof.
  intros Hinst Hp.
  destruct (install_fulfilled _ _ _ Hinst) as (resps & Hfetch & _ & ->).
  rewrite cache_of_insert.
  apply mapM_Some_1 in Hfetch.
  destruct (zip_elem_of_l _ _ _ (new_Request o p) Hfetch) as (rs & Hin & _).
  { unfold core_requests. apply list_elem_of_fmap. by exists p. }
  apply (match_first_is_Some _ _ _ (new_Request o p, rs)).
  - unfold installed. apply elem_of_app. by right.
  - by apply request_matches_ignoreSearch.
Qed.

(** C1, as amended: when the fetch of a Core Asset fails (no response, or a
    response that is not ok), the install promise rejects and [skipWaiting]
    is not called; nothing is written to any cache, so every generation that
    existed keeps exactly its contents and no partial generation appears.
    The storage differs only by what [caches.open] did: the cache of the
    current name now exists, and is empty if it did not exist before. *)
Theorem install_failure_stores_nothing o w p :
  p ∈ CORE_ASSETS →
  fetch_ok (network w) (new_Request o p) = None →
  ∃ w', on_install o w = (Rejected TypeError, w') ∧
        caches w' = opened CACHE_NAME (caches w) ∧
        (∀ name, cache_of (caches w') name = cache_of (caches w) name) ∧
        (∀ name c, caches w !! name = Some c → caches w' !! name = Some c) ∧
        ∃ calls, trace w' = trace w ++ calls ∧
                 (SkipWaiting ∉ calls) ∧
                 Forall (λ e, is_cache_write e = false) calls.
Proof.
  intros Hp Hfail. rewrite on_install_eq. cbv zeta.
  assert (Hnone : mapM (fetch_ok (network w)) (core_requests o) = None).
  { apply mapM_None_2, Exists_exists. exists (new_Request o p).
    split; [|done]. unfold core_requests. apply list_elem_of_fmap. by exists p. }
  rewrite Hnone. eexists. split; [done|]. cbn [caches trace].
  split; [done|]. split; [apply cache_of_opened|].
  split; [intros name c; apply opened_lookup_Some|].
  eexists. split; [done|]. split.
  - intros Hin. apply elem_of_cons in Hin as [?|Hin]; [done|].
    apply list_elem_of_fmap in Hin as (? & ? & _). done.
  - constructor; [done|]. apply Forall_fmap, Forall_forall. done.
Qed.

(** C4: once install has succeeded, and as long as the current generation is
    the one install made, a transport failure on an intercepted GET request
    is answered with some response. *)
Theorem installed_worker_always_responds o w0 w1 w req :
  on_install o w0 = (Fulfilled (), w1) →
  caches w !! CACHE_NAME = caches w1 !! CACHE_NAME →
  method req = "GET" →
  network w req = None →
  ∃ r, (on_fetch o req w).1 = RespondWith (Fulfilled (Some r)).
Proof.
  intros Hinst Hgen Hm Hnet. rewrite GET_intercepted by done.
  rewrite respond_offline by done. cbn [fst].
  assert (Hc : cache_of (caches w) CACHE_NAME = cache_of (caches w1) CACHE_NAME)
    by (unfold cache_of; by rewrite Hgen).
  rewrite Hc. destruct (match_first _ req _) as [r|]; [by exists r|].
  destruct (install_stores_core o w0 w1 OFFLINE_URL "" Hinst) as [r Hr].
  { by apply (bool_decide_unpack _). }
  exists r. unfold new_Request. by rewrite Hr.
Qed.

(** C5: after the activation that follows a successful install, the storage
    holds exactly one cache, the one install filled, under the name
    [CACHE_NAME], whatever the storage held before. *)
Theorem activation_leaves_one_generation o w w1 :
  on_install o w = (Fulfilled (), w1) →
  ∃ w2 c, on_activate w1 = (Fulfilled (), w2) ∧
          caches w1 !! CACHE_NAME = Some c ∧
          caches w2 = {[CACHE_NAME := c]} ∧
          (caches_keys w2).1 = Fulfilled [CACHE_NAME].
Proof.
  intros Hinst.
  destruct (install_fulfilled _ _ _ Hinst) as (resps & _ & _ & Hc).
  destruct (on_activate_eq w1) as [tr Hact].
  rewrite Hc, lookup_insert_eq in Hact. rewrite Hc, lookup_insert_eq.
  eexists _, _. split; [exact Hact|]. split; [done|].
  cbn [caches]. split; [done|].
  unfold caches_keys. cbn [fst caches]. by rewrite map_to_list_singleton.
Qed.

(** C8: after a successful install, looking up any Core Asset path in the
    current generation, whatever the query string and with [ignoreSearch],
    gives a stored response. *)
Theorem core_assets_cached_after_install o w w1 p q :
  on_install o w = (Fulfilled (), w1) →
  p ∈ CORE_ASSETS →
  ∃ r, (cache_match CACHE_NAME (mkRequest "GET" (mkURL o p q))
          {| ignoreSearch := true |} w1).1 = Fulfilled (Some r).
Proof.
  intros Hinst Hp.
  destruct (install_stores_core o w w1 p q Hinst Hp) as [r Hr].
  exists r. unfold cache_match. cbn [fst]. by rewrite Hr.
Qed.

(** C9: installing again over the result of a successful install (same
    version, same answers from the origin) succeeds, leaves the storage as the
    first install left it, and every Core Asset request is the key of exactly
    one entry of the generation. *)
Theorem install_twice_same_storage o w w1 :
  on_install o w = (Fulfilled (), w1) →
  ∃ w2, on_install o w1 = (Fulfilled (), w2) ∧
        caches w2 = caches w1 ∧
        ∀ rq, rq ∈ core_requests o →
              occurrences rq (cache_of (caches w2) CACHE_NAME) = 1.
Proof.
  intros Hinst.
  destruct (install_fulfilled _ _ _ Hinst) as (resps & Hfetch & Hnet & Hc).
  rewrite on_install_eq. cbv zeta. rewrite Hnet, Hfetch.
  eexists. split; [done|]. cbn [caches].
  assert (Hsame :
    <[CACHE_NAME := installed (core_requests o) resps
                      (cache_of (caches w1) CACHE_NAME)]> (caches w1)
    = caches w1).
  { rewrite Hc, cache_of_insert, insert_insert_eq.
    rewrite installed_installed by apply core_requests_GET. done. }
  rewrite Hsame. split; [done|].
  intros rq Hrq. rewrite Hc, cache_of_insert.
  apply occurrences_installed.
  - eapply NoDup_fmap_1, core_requests_NoDup.
  - by eapply length_mapM.
  - done.
  - by eapply core_requests_GET.
Qed.

(** * The claims on the sample worlds *)

Ltac by_computation := apply (bool_decide_unpack _); vm_compute; exact I.

(** C1 as stated fails: the fetch of [/team/] gets no response, install
    rejects, and a generation of the current name, which did not exist, is
    left behind, empty. *)
Lemma install_failure_leaves_empty_generation :
  let w := mkWorld origin_team_unreachable stale_storage [] in
  let w' := (on_install site w).2 in
  network w (new_Request site "/team/") = None ∧
  (on_install site w).1 = Rejected TypeError ∧
  caches w !! CACHE_NAME = None ∧
  caches w' !! CACHE_NAME = Some [] ∧
  caches w' ≠ caches w.
Proof.
  cbv zeta. split; [reflexivity|]. split; [vm_compute; reflexivity|].
  split; [vm_compute; reflexivity|]. split; [vm_compute; reflexivity|].
  intros Heq. apply (f_equal (λ m : gmap string Cache, m !! CACHE_NAME)) in Heq.
  vm_compute in Heq. discriminate.
Qed.

Lemma install_failure_stores_nothing_witness :
  let w := mkWorld origin_without_team stale_storage [] in
  "/team/" ∈ CORE_ASSETS ∧
  fetch_ok (network w) (new_Request site "/team/") = None ∧
  (on_install site w).1 = Rejected TypeError ∧
  (∀ name c, caches w !! name = Some c →
             caches (on_install site w).2 !! name = Some c).
Proof.
  cbv zeta.
  assert (Hp : "/team/" ∈ CORE_ASSETS) by by_computation.
  assert (Hfail : fetch_ok origin_without_team (new_Request site "/team/") = None)
    by reflexivity.
  split; [exact Hp|]. split; [exact Hfail|].
  destruct (install_failure_stores_nothing site
              (mkWorld origin_without_team stale_storage []) "/team/" Hp Hfail)
    as (w' & -> & _ & _ & Hkept & _).
  split; [reflexivity|exact Hkept].
Defined.

Lemma network_response_returned_verbatim_witness :
  let w := mkWorld origin_without_team (caches activated_world) [] in
  method (GET "/team/" "") = "GET" ∧
  network w (GET "/team/" "") = Some (mkResponse 404 "Not Found") ∧
  (on_fetch site (GET "/team/" "") w).1 =
    RespondWith (Fulfilled (Some (mkResponse 404 "Not Found"))).
Proof.
  cbv zeta. split; [reflexivity|]. split; [reflexivity|].
  rewrite (network_response_returned_verbatim site (GET "/team/" "")
             (mkWorld origin_without_team (caches activated_world) [])
             (mkResponse 404 "Not Found")); reflexivity.
Defined.

Lemma transport_failure_served_from_cache_witness :
  let w := mkWorld origin_down (caches activated_world) [] in
  method (GET "/about/" "?x=1") = "GET" ∧
  network w (GET "/about/" "?x=1") = None ∧
  (on_fetch site (GET "/about/" "?x=1") w).1 =
    RespondWith (Fulfilled (Some (mkResponse 200 "/about/"))).
Proof.
  cbv zeta. split; [reflexivity|]. split; [reflexivity|].
  rewrite (transport_failure_served_from_cache site (GET "/about/" "?x=1")
             (mkWorld origin_down (caches activated_world) []));
    [vm_compute|..]; reflexivity.
Defined.

Lemma installed_worker_always_responds_witness :
  let w0 := mkWorld origin_up stale_storage [] in
  let w := mkWorld origin_down (caches activated_world) [] in
  on_install site w0 = (Fulfilled (), installed_world) ∧
  caches w !! CACHE_NAME = caches installed_world !! CACHE_NAME ∧
  method (GET "/nonexistent-page" "") = "GET" ∧
  network w (GET "/nonexistent-page" "") = None ∧
  ∃ r, (on_fetch site (GET "/nonexistent-page" "") w).1 =
       RespondWith (Fulfilled (Some r)).
Proof.
  cbv zeta.
  assert (Hinst : on_install site (mkWorld origin_up stale_storage [])
                  = (Fulfilled (), installed_world))
    by (vm_compute; reflexivity).
  assert (Hgen : caches (mkWorld origin_down (caches activated_world) [])
                   !! CACHE_NAME = caches installed_world !! CACHE_NAME)
    by (vm_compute; reflexivity).
  split; [exact Hinst|]. split; [exact Hgen|].
  split; [reflexivity|]. split; [reflexivity|].
  exact (installed_worker_always_responds site _ _ _
           (GET "/nonexistent-page" "") Hinst Hgen eq_refl eq_refl).
Defined.

Lemma activation_leaves_one_generation_witness :
  let w0 := mkWorld origin_up stale_storage [] in
  on_install site w0 = (Fulfilled (), installed_world) ∧
  size (caches installed_world) = 3 ∧
  (caches_keys activated_world).1 = Fulfilled [CACHE_NAME].
Proof.
  cbv zeta.
  assert (Hinst : on_install site (mkWorld origin_up stale_storage [])
                  = (Fulfilled (), installed_world))
    by (vm_compute; reflexivity).
  split; [exact Hinst|]. split; [vm_compute; reflexivity|].
  destruct (activation_leaves_one_generation site _ _ Hinst)
    as (w2 & c & Hact & _ & _ & Hkeys).
  unfold activated_world. rewrite Hact. exact Hkeys.
Defined.

Lemma non_GET_passes_through_witness :
  let w := mkWorld origin_down (caches activated_world) [] in
  let req := {| method := "POST"; url := url (GET "/about/" "") |} in
  method req ≠ "GET" ∧ on_fetch site req w = (NotIntercepted, w).
Proof.
  cbv zeta.
  assert (Hm : method {| method := "POST"; url := url (GET "/about/" "") |}
               ≠ "GET") by (simpl; discriminate).
  split; [exact Hm|].
  exact (non_GET_passes_through site _ _ Hm).
Defined.

(** C7 as stated fails: with no cache of the current name and the network
    down, handling a GET request changes the storage. *)
Lemma fetch_creates_missing_generation :
  let w := mkWorld origin_down stale_storage [] in
  let w' := (on_fetch site (GET "/about/" "?x=1") w).2 in
  caches w !! CACHE_NAME = None ∧
  caches w' !! CACHE_NAME = Some [] ∧
  caches w' ≠ caches w.
Proof.
  cbv zeta. split; [vm_compute; reflexivity|]. split; [vm_compute; reflexivity|].
  intros Heq. apply (f_equal (λ m : gmap string Cache, m !! CACHE_NAME)) in Heq.
  vm_compute in Heq. discriminate.
Qed.

Lemma core_assets_cached_after_install_witness :
  let w0 := mkWorld origin_up stale_storage [] in
  on_install site w0 = (Fulfilled (), installed_world) ∧
  "/events/" ∈ CORE_ASSETS ∧
  ∃ r, (cache_match CACHE_NAME (GET "/events/" "?page=2")
          {| ignoreSearch := true |} installed_world).1 = Fulfilled (Some r).
Proof.
  cbv zeta.
  assert (Hinst : on_install site (mkWorld origin_up stale_storage [])
                  = (Fulfilled (), installed_world))
    by (vm_compute; reflexivity).
  assert (Hp : "/events/" ∈ CORE_ASSETS) by by_computation.
  split; [exact Hinst|]. split; [exact Hp|].
  exact (core_assets_cached_after_install site _ _ "/events/" "?page=2" Hinst Hp).
Defined.

Lemma install_twice_same_storage_witness :
  let w0 := mkWorld origin_up stale_storage [] in
  on_install site w0 = (Fulfilled (), installed_world) ∧
  (on_install site installed_world).1 = Fulfilled () ∧
  caches (on_install site installed_world).2 = caches installed_world.
Proof.
  cbv zeta.
  assert (Hinst : on_install site (mkWorld origin_up stale_storage [])
                  = (Fulfilled (), installed_world))
    by (vm_compute; reflexivity).
  split; [exact Hinst|].
  destruct (install_twice_same_storage site _ _ Hinst) as (w2 & -> & Hc & _).
  split; [reflexivity|exact Hc].
Defined.

Lemma no_snapshot_resolves_undefined_witness :
  let w := mkWorld origin_down stale_storage [] in
  let c := cache_of (caches w) CACHE_NAME in
  method (GET "/about/" "") = "GET" ∧
  network w (GET "/about/" "") = None ∧
  stored_ignoring_query c (url (GET "/about/" "")) = None ∧
  stored_ignoring_query c (url (new_Request site OFFLINE_URL)) = None ∧
  (on_fetch site (GET "/about/" "") w).1 = RespondWith (Fulfilled None).
Proof.
  cbv zeta. split; [reflexivity|]. split; [reflexivity|].
  split; [vm_compute; reflexivity|]. split; [vm_compute; reflexivity|].
  apply (no_snapshot_resolves_undefined site (GET "/about/" "")
           (mkWorld origin_down stale_storage []));
    solve [reflexivity | vm_compute; reflexivity].
Defined.

(** * The scenarios of the specification, on the sample worlds *)

(** Scenario A: network reachable, the live response is returned and the
    storage is untouched. *)
Example scenario_A :
  let w := mkWorld origin_up (caches activated_world) [] in
  on_fetch site (GET "/about/" "?x=1") w =
  (RespondWith (Fulfilled (Some (mkResponse 200 "/about/"))),
   mkWorld origin_up (caches activated_world) [Fetch (GET "/about/" "?x=1")]).
Proof. reflexivity. Qed.

(** Scenario C: network unreachable, a page outside the Core Asset Set is
    answered with the stored [/offline.html]. *)
Example scenario_C :
  let w := mkWorld origin_down (caches activated_world) [] in
  (on_fetch site (GET "/nonexistent-page" "") w).1 =
  RespondWith (Fulfilled (Some (mkResponse 200 "/offline.html"))).
Proof. vm_compute. reflexivity. Qed.

(** Scenario E, second half: after the failed install the generation of the
    earlier deployment is as it was. *)
Example scenario_E :
  let w := mkWorld origin_team_unreachable stale_storage [] in
  caches (on_install site w).2 !! "ctc-static-v0" = stale_storage !! "ctc-static-v0".
Proof. vm_compute. reflexivity. Qed.

(** * Further properties of the service worker *)

Lemma match_first_Some_elem_of o q (c : Cache) r :
  match_first o q c = Some r →
  ∃ e, e ∈ c ∧ e.2 = r ∧ request_matches o q e.1 = true.
Proof.
  unfold match_first, query_cache. intros Hm.
  destruct (head (filter _ c)) as [e|] eqn:Hhead; [|done].
  simpl in Hm. injection Hm as <-.
  apply head_Some_elem_of, list_elem_of_filter in Hhead as [Hmatch Hin].
  exists e. split; [done|]. split; [done|]. by apply Is_true_true.
Qed.

Lemma match_first_None o q (c : Cache) :
  (∀ e, e ∈ c → request_matches o q e.1 = false) → match_first o q c = None.
Proof.
  intros Hnone. unfold match_first, query_cache.
  rewrite filter_none; [done|].
  intros e He Hm. apply Is_true_true in Hm. rewrite (Hnone e He) in Hm. done.
Qed.

Lemma core_requests_elem_of o rq :
  rq ∈ core_requests o ↔ ∃ p, rq = new_Request o p ∧ p ∈ CORE_ASSETS.
Proof. unfold core_requests. apply list_elem_of_fmap. Qed.

(** In a batch of fetched responses, the first entry whose request satisfies
    a test only one request of the batch passes is the answer to it. *)
Lemma head_filter_zip (f : Request → option Response) (M : Request → Prop)
    {Mdec : ∀ r, Decision (M r)} reqs resps x :
  Forall2 (λ a b, f a = Some b) reqs resps →
  x ∈ reqs →
  (∀ rq, rq ∈ reqs → M rq ↔ rq = x) →
  snd <$> head (filter (λ e : Request * Response, M e.1) (zip reqs resps)) = f x.
Proof.
  induction 1 as [|a b reqs resps Hab _ IH]; intros Hx Huniq.
  - by apply elem_of_nil in Hx.
  - cbn [zip zip_with]. rewrite filter_cons. cbn [fst].
    destruct (decide (M a)) as [Ha|Ha].
    + apply Huniq in Ha; [|by left]. subst a. by rewrite Hab.
    + apply IH.
      * apply elem_of_cons in Hx as [->|Hx]; [|done].
        exfalso. apply Ha, Huniq; [by left|done].
      * intros rq Hrq. apply Huniq. by right.
Qed.

Lemma fetch_ok_Some net rq rs :
  fetch_ok net rq = Some rs ↔ net rq = Some rs ∧ ok_status rs = true.
Proof.
  unfold fetch_ok. destruct (net rq) as [rs'|].
  - destruct (ok_status rs') eqn:Hok; split.
    + by intros [= ->].
    + by intros [[= ->] _].
    + done.
    + intros [[= ->] Hok']. congruence.
  - split; [done|by intros [? _]].
Qed.

(** What a lookup that ignores the query string finds in a generation that
    has just been installed over a query-free one. *)
Lemma match_first_installed net o resps (c : Cache) p q :
  Forall2 (λ a b, fetch_ok net a = Some b) (core_requests o) resps →
  query_free c →
  p ∈ CORE_ASSETS →
  match_first {| ignoreSearch := true |} (mkRequest "GET" (mkURL o p q))
    (installed (core_requests o) resps c) = fetch_ok net (new_Request o p).
Proof.
  intros Hfetch Hfree Hp. unfold match_first, query_cache, installed.
  assert (Hreq : new_Request o p ∈ core_requests o)
    by (apply core_requests_elem_of; by exists p).
  rewrite filter_app, (filter_none _ (filter _ c)), app_nil_l.
  - apply (head_filter_zip (fetch_ok net)
             (λ r, request_matches {| ignoreSearch := true |}
                     (mkRequest "GET" (mkURL o p q)) r)
             (Mdec := λ r, Is_true_dec _)); [done..|].
    intros rq Hrq. apply core_requests_elem_of in Hrq as (p' & -> & _).
    rewrite Is_true_true, request_matches_ignoreSearch. simpl.
    split; [by intros (_ & _ & _ & ->)|by intros [= ->]].
  - intros [rq rs] Hin Hm. apply list_elem_of_filter in Hin as [Hun Hin].
    apply Is_true_true, request_matches_ignoreSearch in Hm.
    simpl in Hm. destruct Hm as (_ & Hget & Ho & Hpath).
    unfold query_free in Hfree. rewrite Forall_forall in Hfree.
    specialize (Hfree _ Hin). simpl in Hfree.
    unfold unmatched in Hun. rewrite Forall_forall in Hun.
    apply (Hun _ Hreq). apply Is_true_true, request_matches_no_options.
    simpl. split; [done|]. split; [done|].
    destruct rq as [m [og pa se]]. simpl in *. by subst.
Qed.

Lemma installed_query_free o resps (c : Cache) :
  query_free c → query_free (installed (core_requests o) resps c).
Proof.
  intros Hfree. unfold query_free, installed. apply Forall_app. split.
  - apply Forall_forall. intros e He.
    apply list_elem_of_filter in He as [_ He].
    unfold query_free in Hfree. rewrite Forall_forall in Hfree. auto.
  - apply Forall_forall. intros [rq rs] Hin. apply zip_elem_of_fst in Hin.
    apply core_requests_elem_of in Hin as (p & -> & _). done.
Qed.

(** Install is fulfilled exactly when the origin answers every Core Asset
    with an ok status. *)
Theorem install_succeeds_iff_all_ok o w :
  (on_install o w).1 = Fulfilled () ↔
  ∀ p, p ∈ CORE_ASSETS →
       ∃ rs, network w (new_Request o p) = Some rs ∧ ok_status rs = true.
Proof.
  rewrite on_install_eq. cbv zeta.
  destruct (mapM _ _) as [resps|] eqn:Hfetch; cbn [fst]; split.
  - intros _ p Hp. apply mapM_Some_1 in Hfetch.
    destruct (zip_elem_of_l _ _ _ (new_Request o p) Hfetch) as (rs & _ & Hrs).
    { apply core_requests_elem_of. by exists p. }
    exists rs. by apply fetch_ok_Some.
  - done.
  - done.
  - intros Hall. apply mapM_None_1, Exists_exists in Hfetch as (rq & Hrq & Hnone).
    apply core_requests_elem_of in Hrq as (p & -> & Hp).
    destruct (Hall p Hp) as (rs & Hrs). apply fetch_ok_Some in Hrs. congruence.
Qed.

(** Whether it is fulfilled or not, install leaves every cache of another
    name exactly as it was. *)
Theorem install_keeps_other_caches o w name :
  name ≠ CACHE_NAME →
  caches (on_install o w).2 !! name = caches w !! name.
Proof.
  intros Hne. rewrite on_install_eq. cbv zeta.
  destruct (mapM _ _) as [resps|]; cbn [snd caches].
  - by rewrite lookup_insert_ne.
  - unfold opened. destruct (caches w !! CACHE_NAME); [done|].
    by rewrite lookup_insert_ne.
Qed.

(** After an install over a generation without query strings (a new one in
    particular), a Core Asset page requested while the network is down is
    answered, whatever its query string, with what the origin answered for
    it at install; and the generation is again without query strings. *)
Theorem offline_core_page_is_installed_copy o w0 w1 w p q :
  on_install o w0 = (Fulfilled (), w1) →
  query_free (cache_of (caches w0) CACHE_NAME) →
  caches w !! CACHE_NAME = caches w1 !! CACHE_NAME →
  p ∈ CORE_ASSETS →
  network w (mkRequest "GET" (mkURL o p q)) = None →
  (on_fetch o (mkRequest "GET" (mkURL o p q)) w).1 =
    RespondWith (Fulfilled (network w0 (new_Request o p))) ∧
  is_Some (network w0 (new_Request o p)) ∧
  query_free (cache_of (caches w1) CACHE_NAME).
Proof.
  intros Hinst Hfree Hgen Hp Hnet.
  destruct (install_fulfilled _ _ _ Hinst) as (resps & Hfetch & _ & Hc).
  apply mapM_Some_1 in Hfetch.
  assert (Hgen' : cache_of (caches w) CACHE_NAME =
                  installed (core_requests o) resps (cache_of (caches w0) CACHE_NAME)).
  { unfold cache_of at 1. rewrite Hgen, Hc. by rewrite lookup_insert_eq. }
  destruct (zip_elem_of_l _ _ _ (new_Request o p) Hfetch) as (rs & _ & Hrs).
  { apply core_requests_elem_of. by exists p. }
  pose proof Hrs as Hok. apply fetch_ok_Some in Hok as [Hnetp _].
  split; [|split].
  - rewrite GET_intercepted by done. rewrite respond_offline by done.
    cbn [fst]. rewrite Hgen'.
    rewrite (match_first_installed (network w0)) by done.
    by rewrite Hrs, Hnetp.
  - by rewrite Hnetp.
  - rewrite Hc, cache_of_insert. by apply installed_query_free.
Qed.

(** After a first install of the version (its generation was missing or
    empty), a GET request that is not for a Core Asset path of the worker's
    origin, made while the network is down, is answered with what the origin
    answered for [/offline.html] at install. *)
Theorem offline_other_page_is_offline_document o w0 w1 w req :
  on_install o w0 = (Fulfilled (), w1) →
  cache_of (caches w0) CACHE_NAME = [] →
  caches w !! CACHE_NAME = caches w1 !! CACHE_NAME →
  method req = "GET" →
  network w req = None →
  ¬ (origin (url req) = o ∧ pathname (url req) ∈ CORE_ASSETS) →
  (on_fetch o req w).1 =
    RespondWith (Fulfilled (network w0 (new_Request o OFFLINE_URL))) ∧
  is_Some (network w0 (new_Request o OFFLINE_URL)).
Proof.
  intros Hinst Hempty Hgen Hm Hnet Hother.
  destruct (install_fulfilled _ _ _ Hinst) as (resps & Hfetch & _ & Hc).
  apply mapM_Some_1 in Hfetch.
  assert (Hgen' : cache_of (caches w) CACHE_NAME =
                  installed (core_requests o) resps []).
  { unfold cache_of at 1. rewrite Hgen, Hc, lookup_insert_eq. simpl.
    by rewrite Hempty. }
  assert (Hoff : OFFLINE_URL ∈ CORE_ASSETS) by by_computation.
  destruct (zip_elem_of_l _ _ _ (new_Request o OFFLINE_URL) Hfetch)
    as (rs & _ & Hrs).
  { apply core_requests_elem_of. by exists OFFLINE_URL. }
  pose proof Hrs as Hok. apply fetch_ok_Some in Hok as [Hnetp _].
  split; [|by rewrite Hnetp].
  rewrite GET_intercepted by done. rewrite respond_offline by done.
  cbn [fst]. rewrite Hgen'.
  rewrite (match_first_None _ req).
  - unfold new_Request at 1.
    rewrite (match_first_installed (network w0)) by (done || constructor).
    by rewrite Hrs, Hnetp.
  - intros [rq rs'] Hin. unfold installed in Hin.
    apply elem_of_app in Hin as [Hin|Hin]; [by apply elem_of_nil in Hin|].
    apply zip_elem_of_fst in Hin.
    apply core_requests_elem_of in Hin as (p & -> & Hp).
    apply not_true_iff_false. intros Hmatch.
    apply request_matches_ignoreSearch in Hmatch. simpl in Hmatch.
    destruct Hmatch as (_ & _ & Ho & Hpath). apply Hother. by rewrite Ho, Hpath.
Qed.

(** ** Activation, on any storage *)

Lemma on_activate_calls w :
  let names := filter (λ k, k ≠ CACHE_NAME) (map_to_list (caches w)).*1 in
  trace (on_activate w).2 =
  trace w ++ [CachesKeys] ++ (CachesDelete <$> names) ++ [ClientsClaim].
Proof.
  cbv zeta. unfold on_activate, mbind, Promise_bind, then_, caches_keys.
  set (names := filter _ _).
  destruct (Promise_all_delete names (log CachesKeys w)) as [bs ->].
  unfold clients_claim, log. cbn [snd network caches trace].
  by rewrite <- !app_assoc.
Qed.

(** Activation is always fulfilled; it keeps the cache named [CACHE_NAME] as
    it is, if there is one, and no other. *)
Theorem activate_keeps_only_current w name :
  (on_activate w).1 = Fulfilled () ∧
  caches (on_activate w).2 !! name =
    if decide (name = CACHE_NAME) then caches w !! CACHE_NAME else None.
Proof.
  destruct (on_activate_eq w) as [tr ->]. cbn [fst snd caches].
  split; [done|]. destruct (decide (name = CACHE_NAME)) as [->|Hne].
  - destruct (caches w !! CACHE_NAME);
      [by rewrite lookup_singleton_eq|by rewrite lookup_empty].
  - destruct (caches w !! CACHE_NAME);
      [by rewrite lookup_singleton_ne|by rewrite lookup_empty].
Qed.

(** Activating again changes nothing in the storage. *)
Theorem activate_twice_same_storage w :
  caches (on_activate (on_activate w).2).2 = caches (on_activate w).2.
Proof.
  destruct (on_activate_eq (on_activate w).2) as [tr2 ->].
  destruct (on_activate_eq w) as [tr ->]. cbn [snd caches].
  destruct (caches w !! CACHE_NAME);
    [by rewrite lookup_singleton_eq|by rewrite lookup_empty].
Qed.

(** The platform calls of activation: the keys are read, a delete is issued
    once for each cache of another name and for nothing else, never for
    [CACHE_NAME], and the clients are claimed last. *)
Theorem activate_deletes_exactly_the_others w :
  ∃ names,
    trace (on_activate w).2 =
      trace w ++ [CachesKeys] ++ (CachesDelete <$> names) ++ [ClientsClaim] ∧
    NoDup names ∧
    ∀ name, name ∈ names ↔ name ≠ CACHE_NAME ∧ is_Some (caches w !! name).
Proof.
  eexists. split; [apply on_activate_calls|]. split.
  - apply NoDup_filter, NoDup_fst_map_to_list.
  - intros name. rewrite list_elem_of_filter, list_elem_of_fmap.
    split.
    + intros [Hne ([k c] & -> & Hin)]. apply elem_of_map_to_list in Hin.
      split; [done|]. by exists c.
    + intros [Hne [c Hc]]. split; [done|]. exists (name, c).
      split; [done|]. by apply elem_of_map_to_list.
Qed.

(** ** The generation over the life of the worker *)

Lemma handle_generation o e w :
  cache_of (caches (handle o e w)) CACHE_NAME = cache_of (caches w) CACHE_NAME.
Proof.
  destruct e as [|req|net]; cbn [handle].
  - destruct (on_activate_eq w) as [tr ->]. cbn [snd caches]. unfold cache_of.
    destruct (caches w !! CACHE_NAME);
      [by rewrite lookup_singleton_eq|by rewrite lookup_empty].
  - destruct (on_fetch_caches o req w) as [->|(_ & _ & ->)];
      [done|apply cache_of_opened].
  - done.
Qed.

Lemma generation_never_changes_run o es w :
  cache_of (caches (run o es w)) CACHE_NAME = cache_of (caches w) CACHE_NAME.
Proof.
  revert w. induction es as [|e es IH]; intros w; [done|].
  cbn [run foldl]. fold (run o es (handle o e w)).
  by rewrite IH, handle_generation.
Qed.

(** No activation, fetch event or change of the network ever changes the
    contents of the current generation, and none creates a cache of another
    name. *)
Theorem generation_never_changes o es w name :
  cache_of (caches (run o es w)) CACHE_NAME = cache_of (caches w) CACHE_NAME ∧
  (caches w !! name = None → name ≠ CACHE_NAME →
   caches (run o es w) !! name = None).
Proof.
  split; [apply generation_never_changes_run|].
  revert w. induction es as [|e es IH]; intros w Hnone Hne; [done|].
  cbn [run foldl]. fold (run o es (handle o e w)). apply IH; [|done].
  destruct e as [|req|net]; cbn [handle].
  - destruct (on_activate_eq w) as [tr ->]. cbn [snd caches].
    destruct (caches w !! CACHE_NAME);
      [by rewrite lookup_singleton_ne|by rewrite lookup_empty].
  - destruct (on_fetch_caches o req w) as [->|(_ & _ & ->)]; [done|].
    unfold opened. destruct (caches w !! CACHE_NAME); [done|].
    by rewrite lookup_insert_ne.
  - done.
Qed.

(** Once installed, and whatever happens afterwards, the worker answers every
    GET request that finds the network down. *)
Theorem installed_worker_responds_forever o w0 w1 es req :
  on_install o w0 = (Fulfilled (), w1) →
  method req = "GET" →
  network (run o es w1) req = None →
  ∃ r, (on_fetch o req (run o es w1)).1 = RespondWith (Fulfilled (Some r)).
Proof.
  intros Hinst Hm Hnet. rewrite GET_intercepted by done.
  rewrite respond_offline by done. cbn [fst].
  rewrite generation_never_changes_run.
  destruct (match_first _ req _) as [r|]; [by exists r|].
  destruct (install_stores_core o w0 w1 OFFLINE_URL "" Hinst) as [r Hr].
  { by_computation. }
  exists r. unfold new_Request. by rewrite Hr.
Qed.

(** ** Answers without the network *)

(** Two GET requests that differ only in their query strings get the same
    answer when the network is down for both. *)
Theorem offline_answer_ignores_query o w req1 req2 :
  method req1 = "GET" → method req2 = "GET" →
  origin (url req1) = origin (url req2) →
  pathname (url req1) = pathname (url req2) →
  network w req1 = None → network w req2 = None →
  (on_fetch o req1 w).1 = (on_fetch o req2 w).1.
Proof.
  intros Hm1 Hm2 Ho Hp Hn1 Hn2. rewrite !GET_intercepted by done.
  rewrite !respond_offline by done. cbn [fst].
  rewrite !fallback_response_eq by done.
  unfold fallback_response, stored_ignoring_query. by rewrite Ho, Hp.
Qed.

(** A response given while the network is down is a snapshot stored in the
    current generation, under a GET request for the path of the request or
    for [/offline.html]; no other cache is ever served from. *)
Theorem offline_answer_is_stored o w req r :
  network w req = None →
  (on_fetch o req w).1 = RespondWith (Fulfilled (Some r)) →
  ∃ e, e ∈ cache_of (caches w) CACHE_NAME ∧ e.2 = r ∧
       method e.1 = "GET" ∧
       (origin (url e.1) = origin (url req) ∧
        pathname (url e.1) = pathname (url req) ∨
        origin (url e.1) = o ∧ pathname (url e.1) = OFFLINE_URL).
Proof.
  intros Hnet Hout. destruct (decide (method req = "GET")) as [Hm|Hm].
  - rewrite GET_intercepted in Hout by done.
    rewrite respond_offline in Hout by done. cbn [fst] in Hout.
    destruct (match_first _ req _) as [r'|] eqn:Hreq.
    + injection Hout as ->.
      apply match_first_Some_elem_of in Hreq as (e & Hin & Hr & Hmatch).
      apply request_matches_ignoreSearch in Hmatch as (_ & ? & ? & ?).
      exists e. naive_solver.
    + injection Hout as Hoff.
      apply match_first_Some_elem_of in Hoff as (e & Hin & Hr & Hmatch).
      apply request_matches_ignoreSearch in Hmatch as (_ & ? & ? & ?).
      exists e. simpl in *. naive_solver.
  - by rewrite not_GET_not_intercepted in Hout.
Qed.

(** * The mobile menu (src/header.js) *)

Lemma set_header_classList_id d : set_header_classList (header_classList d) d = d.
Proof. by destruct d. Qed.

Lemma isOpen_setOpen b d : MobileNav.isOpen (MobileNav.setOpen b d) = b.
Proof.
  unfold MobileNav.isOpen, MobileNav.setOpen, classList_contains,
    classList_toggle, classList_add, classList_remove. cbn [root_classList].
  destruct b.
  - apply bool_decide_eq_true_2, elem_of_union. right. by apply elem_of_singleton.
  - apply bool_decide_eq_false_2. intros [_ Hout]%elem_of_difference.
    apply Hout. by apply elem_of_singleton.
Qed.

Lemma setOpen_consistent b d : MobileNav.aria_consistent (MobileNav.setOpen b d).
Proof.
  unfold MobileNav.aria_consistent. rewrite isOpen_setOpen.
  unfold MobileNav.setOpen. cbn [toggle_attributes menu_attributes].
  rewrite lookup_insert_ne by done. rewrite !lookup_insert_eq.
  by destruct b.
Qed.

Lemma setOpen_header b d :
  header_classList (MobileNav.setOpen b d) = header_classList d.
Proof. done. Qed.

(** What [onScroll] can do to the page. *)
Lemma onScroll_cases v s d :
  (MobileNav.onScroll v s d).2 = d ∨
  MobileNav.isOpen d = false ∧
  ((MobileNav.onScroll v s d).2 = MobileNav.show_header d ∨
   (MobileNav.onScroll v s d).2 = MobileNav.hide_header d).
Proof.
  unfold MobileNav.onScroll. destruct (MobileNav.isOpen d); [by left|].
  cbv zeta. repeat case_bool_decide; cbn [snd]; auto.
Qed.

Lemma onScroll_menu v s d :
  ∃ l, (MobileNav.onScroll v s d).2 = set_header_classList l d.
Proof.
  destruct (onScroll_cases v s d) as [->|(_ & [->| ->])].
  - exists (header_classList d). by rewrite set_header_classList_id.
  - by eexists.
  - by eexists.
Qed.

Lemma frame_callbacks_menu v n p :
  ∃ l, MobileNav.dom (Nat.iter n (MobileNav.frame_callback v) p)
       = set_header_classList l (MobileNav.dom p).
Proof.
  induction n as [|n [l IH]].
  - exists (header_classList (MobileNav.dom p)).
    by rewrite set_header_classList_id.
  - rewrite Nat.iter_succ.
    set (q := Nat.iter n (MobileNav.frame_callback v) p) in *. clearbody q.
    destruct (onScroll_menu v (MobileNav.state q) (MobileNav.dom q)) as [l' Hl'].
    unfold MobileNav.frame_callback.
    destruct (MobileNav.onScroll _ _ _) as [s' d']. cbn [snd] in Hl'.
    cbn [MobileNav.dom]. subst d'. rewrite IH. by exists l'.
Qed.

(** Every listener leaves the menu alone or calls [setOpen]. *)
Lemma dispatch_menu e p :
  (∃ l, MobileNav.dom (MobileNav.dispatch e p)
        = set_header_classList l (MobileNav.dom p)) ∨
  (∃ b, MobileNav.dom (MobileNav.dispatch e p) = MobileNav.setOpen b (MobileNav.dom p)).
Proof.
  assert (Hid : ∃ l, MobileNav.dom p = set_header_classList l (MobileNav.dom p)).
  { exists (header_classList (MobileNav.dom p)). by rewrite set_header_classList_id. }
  destruct e as [|t|key|t| |v|v]; cbn [MobileNav.dispatch MobileNav.on_dom MobileNav.dom].
  - right. by eexists.
  - unfold MobileNav.menu_click. destruct (MobileNav.closest_or_null t "a");
      [right; by eexists|by left].
  - unfold MobileNav.keydown. case_bool_decide; [right; by eexists|by left].
  - unfold MobileNav.document_click.
    destruct (negb _); [by left|].
    destruct t as [|[closest|]]; [by left| |right; by eexists].
    destruct (_ || _); [by left|right; by eexists].
  - left. unfold MobileNav.scroll. by destruct (negb _).
  - left. apply frame_callbacks_menu.
  - unfold MobileNav.resize. case_bool_decide; [right; by eexists|by left].
Qed.

(** Once the toggle and the menu say what the root class says, they keep
    saying it, whatever the events. *)
Theorem menu_attributes_stay_consistent es p :
  MobileNav.aria_consistent (MobileNav.dom p) →
  MobileNav.aria_consistent (MobileNav.dom (MobileNav.run es p)).
Proof.
  revert p. induction es as [|e es IH]; intros p Hp; [done|].
  cbn [MobileNav.run foldl]. apply IH.
  destruct (dispatch_menu e p) as [[l ->]|[b ->]]; [done|apply setOpen_consistent].
Qed.

(** No listener but the click listener of the toggle ever opens the menu. *)
Theorem only_the_toggle_opens e p :
  e ≠ MobileNav.ToggleClick →
  MobileNav.isOpen (MobileNav.dom (MobileNav.dispatch e p)) = true →
  MobileNav.isOpen (MobileNav.dom p) = true.
Proof.
  intros He.
  destruct e as [|t|key|t| |v|v]; cbn [MobileNav.dispatch MobileNav.on_dom MobileNav.dom].
  - done.
  - unfold MobileNav.menu_click. destruct (MobileNav.closest_or_null t "a");
      [by rewrite isOpen_setOpen|done].
  - unfold MobileNav.keydown. case_bool_decide; [by rewrite isOpen_setOpen|done].
  - unfold MobileNav.document_click.
    destruct (MobileNav.isOpen (MobileNav.dom p)) eqn:Hopen; [done|].
    cbn [negb]. by rewrite Hopen.
  - unfold MobileNav.scroll. by destruct (negb _).
  - destruct (frame_callbacks_menu v (MobileNav.frames p) p) as [l ->]. done.
  - unfold MobileNav.resize. case_bool_decide; [by rewrite isOpen_setOpen|done].
Qed.

(** Two clicks on the toggle bring the page back to where it was, when the
    attributes said what the root class said. *)
Theorem toggle_twice_restores d :
  MobileNav.aria_consistent d →
  MobileNav.toggle_click (MobileNav.toggle_click d) = d.
Proof.
  intros (Hexp & Hlab & Hhid). unfold MobileNav.toggle_click.
  rewrite isOpen_setOpen, negb_involutive.
  destruct d as [root hdr tattrs mattrs].
  unfold MobileNav.isOpen, classList_contains in *.
  unfold MobileNav.setOpen, classList_toggle, classList_add, classList_remove.
  cbn [root_classList header_classList toggle_attributes menu_attributes] in *.
  case_bool_decide as Hopen; cbn [negb]; f_equal.
  - apply set_eq. intros x. rewrite elem_of_union, elem_of_difference, !elem_of_singleton.
    destruct (decide (x = MobileNav.OPEN_CLASS)) as [->|]; tauto.
  - apply map_eq. intros k. rewrite !lookup_insert.
    repeat case_decide; simplify_eq; done.
  - apply map_eq. intros k. rewrite !lookup_insert.
    repeat case_decide; simplify_eq; done.
  - apply set_eq. intros x. rewrite elem_of_difference, elem_of_union, !elem_of_singleton.
    destruct (decide (x = MobileNav.OPEN_CLASS)) as [->|]; tauto.
  - apply map_eq. intros k. rewrite !lookup_insert.
    repeat case_decide; simplify_eq; done.
  - apply map_eq. intros k. rewrite !lookup_insert.
    repeat case_decide; simplify_eq; done.
Qed.

(** The click that reaches the toggle reaches the document next.  When the
    toggle lies in the header or in the menu the document listener leaves
    what the toggle listener did; when it lies in neither, the menu is closed
    after the click, whether it was open or not. *)
Theorem toggle_click_then_document_click closest d :
  (closest "#ctcHeader" || closest "#ctcMobileMenu" = true →
   MobileNav.document_click (Node (Some closest)) (MobileNav.toggle_click d)
   = MobileNav.toggle_click d) ∧
  (closest "#ctcHeader" || closest "#ctcMobileMenu" = false →
   MobileNav.isOpen
     (MobileNav.document_click (Node (Some closest)) (MobileNav.toggle_click d))
   = false).
Proof.
  unfold MobileNav.document_click, MobileNav.toggle_click.
  rewrite isOpen_setOpen, negb_involutive. split; intros ->.
  - by destruct (MobileNav.isOpen d).
  - destruct (MobileNav.isOpen d); [by rewrite isOpen_setOpen|].
    by rewrite isOpen_setOpen.
Qed.

(** The click listener of the document: a closed menu stays closed and the
    page is untouched; an open one is left as it is by a click inside the
    header or the menu (or without target) and closed by any other click. *)
Theorem document_click_closes_outside t d :
  let inside := match t with
                | NoTarget => true
                | Node None => false
                | Node (Some closest) => closest "#ctcHeader" || closest "#ctcMobileMenu"
                end in
  (MobileNav.isOpen d = false ∨ inside = true → MobileNav.document_click t d = d) ∧
  (MobileNav.isOpen d = true → inside = false →
   MobileNav.isOpen (MobileNav.document_click t d) = false ∧
   MobileNav.aria_consistent (MobileNav.document_click t d)).
Proof.
  cbv zeta. unfold MobileNav.document_click. split.
  - intros [->|Hin]; [done|]. destruct (negb _); [done|].
    destruct t as [|[closest|]]; [done| |done]. by rewrite Hin.
  - intros -> Hout. cbn [negb]. destruct t as [|[closest|]]; [done| |].
    + rewrite Hout. split; [apply isOpen_setOpen|apply setOpen_consistent].
    + split; [apply isOpen_setOpen|apply setOpen_consistent].
Qed.

(** * The hiding header of src/header.js *)

Lemma frame_callback_state v p :
  MobileNav.ticking (MobileNav.state (MobileNav.frame_callback v p)) = false ∧
  MobileNav.frames (MobileNav.frame_callback v p) = MobileNav.frames p.
Proof. unfold MobileNav.frame_callback. by destruct (MobileNav.onScroll _ _ _). Qed.

Lemma frame_callbacks_state v n p :
  MobileNav.frames (Nat.iter n (MobileNav.frame_callback v) p) = MobileNav.frames p ∧
  (n ≠ 0 →
   MobileNav.ticking (MobileNav.state (Nat.iter n (MobileNav.frame_callback v) p))
   = false).
Proof.
  induction n as [|n [IHf _]]; [done|]. rewrite Nat.iter_succ.
  destruct (frame_callback_state v (Nat.iter n (MobileNav.frame_callback v) p))
    as [Ht Hf].
  split; [by rewrite Hf|done].
Qed.

Lemma dispatch_throttled e p :
  MobileNav.throttled p → MobileNav.throttled (MobileNav.dispatch e p).
Proof.
  unfold MobileNav.throttled. intros Hp.
  destruct e as [|t|key|t| |v|v]; cbn [MobileNav.dispatch MobileNav.on_dom
    MobileNav.state MobileNav.frames]; try done.
  - unfold MobileNav.scroll.
    destruct (MobileNav.ticking (MobileNav.state p)) eqn:Ht;
      cbn [negb]; [by rewrite Ht|].
    cbn [MobileNav.state MobileNav.frames MobileNav.ticking]. by rewrite Hp.
  - destruct (MobileNav.frames p) as [|n] eqn:Hn.
    + simpl. by destruct (MobileNav.ticking (MobileNav.state p)).
    + destruct (frame_callbacks_state v (S n) p) as [_ Ht]. by rewrite Ht.
Qed.

(** However many scroll events arrive, at most one callback is queued for
    the next animation frame, and one is queued exactly while [ticking] is
    set. *)
Theorem scroll_events_are_throttled es v d :
  MobileNav.throttled (MobileNav.run es (MobileNav.init v d)) ∧
  (MobileNav.frames (MobileNav.run es (MobileNav.init v d)) ≤ 1)%nat.
Proof.
  assert (Hinv : MobileNav.throttled (MobileNav.run es (MobileNav.init v d))).
  { generalize (MobileNav.init v d) (eq_refl : MobileNav.throttled (MobileNav.init v d)).
    induction es as [|e es IH]; intros p Hp; [done|].
    cbn [MobileNav.run foldl]. by apply IH, dispatch_throttled. }
  split; [done|]. unfold MobileNav.throttled in Hinv. rewrite Hinv.
  destruct (MobileNav.ticking _); lia.
Qed.

Lemma show_header_direction d : MobileNav.one_direction (MobileNav.show_header d).
Proof.
  unfold MobileNav.one_direction, MobileNav.show_header, set_header_classList,
    classList_add, classList_remove. cbn [header_classList].
  rewrite !elem_of_union, !elem_of_difference, !elem_of_singleton.
  split; [|auto]. intros _ [[_ Hd]|Hd]; [by apply Hd|done].
Qed.

Lemma hide_header_direction d : MobileNav.one_direction (MobileNav.hide_header d).
Proof.
  unfold MobileNav.one_direction, MobileNav.hide_header, set_header_classList,
    classList_add, classList_remove. cbn [header_classList].
  rewrite !elem_of_union, !elem_of_difference, !elem_of_singleton.
  split.
  - intros [[_ Hu]|Hu]; [by destruct Hu|done].
  - intros Hd. exfalso. apply Hd. by right.
Qed.

Lemma frame_callbacks_direction v n p :
  MobileNav.one_direction (MobileNav.dom p) →
  MobileNav.one_direction (MobileNav.dom (Nat.iter n (MobileNav.frame_callback v) p)).
Proof.
  intros Hp. induction n as [|n IH]; [done|]. rewrite Nat.iter_succ.
  set (q := Nat.iter n (MobileNav.frame_callback v) p) in *. clearbody q.
  unfold MobileNav.frame_callback.
  destruct (onScroll_cases v (MobileNav.state q) (MobileNav.dom q))
    as [Hd|(_ & [Hd|Hd])];
    destruct (MobileNav.onScroll _ _ _) as [s' d']; cbn [snd] in Hd;
    cbn [MobileNav.dom]; subst d';
    [done|apply show_header_direction|apply hide_header_direction].
Qed.

Lemma dispatch_direction e p :
  MobileNav.one_direction (MobileNav.dom p) →
  MobileNav.one_direction (MobileNav.dom (MobileNav.dispatch e p)).
Proof.
  intros Hp. destruct e as [|t|key|t| |v|v].
  5: { cbn [MobileNav.dispatch]. unfold MobileNav.scroll. by destruct (negb _). }
  5: { cbn [MobileNav.dispatch MobileNav.dom]. by apply frame_callbacks_direction. }
  all: cbn [MobileNav.dispatch MobileNav.on_dom MobileNav.dom].
  - done.
  - unfold MobileNav.menu_click. by destruct (MobileNav.closest_or_null t "a").
  - unfold MobileNav.keydown. by case_bool_decide.
  - unfold MobileNav.document_click. destruct (negb _); [done|].
    destruct t as [|[closest|]]; [done| |done]. by destruct (_ || _).
  - unfold MobileNav.resize. by case_bool_decide.
Qed.

(** On a page whose header does not start hidden, the header carries exactly
    one of [is-up] and [is-down] from the start of the script on, whatever
    the events. *)
Theorem header_has_one_direction es v d :
  "is-down" ∉ header_classList d →
  MobileNav.one_direction (MobileNav.dom (MobileNav.run es (MobileNav.init v d))).
Proof.
  intros Hd.
  assert (Hinit : MobileNav.one_direction (MobileNav.dom (MobileNav.init v d))).
  { unfold MobileNav.one_direction, MobileNav.init, set_header_classList,
      classList_add.
    cbn [MobileNav.dom header_classList].
    rewrite !elem_of_union, !elem_of_singleton. split; [|auto].
    intros _ [?|?]; done. }
  revert Hinit. generalize (MobileNav.init v d).
  induction es as [|e es IH]; intros p Hp; [done|].
  cbn [MobileNav.run foldl]. by apply IH, dispatch_direction.
Qed.

Lemma frame_callbacks_open v n p :
  MobileNav.isOpen (MobileNav.dom p) = true →
  MobileNav.dom (Nat.iter n (MobileNav.frame_callback v) p) = MobileNav.dom p ∧
  MobileNav.lastY (MobileNav.state (Nat.iter n (MobileNav.frame_callback v) p))
  = MobileNav.lastY (MobileNav.state p).
Proof.
  intros Hopen. induction n as [|n [IHd IHy]]; [done|]. rewrite Nat.iter_succ.
  set (q := Nat.iter n (MobileNav.frame_callback v) p) in *. clearbody q.
  unfold MobileNav.frame_callback, MobileNav.onScroll. by rewrite IHd, Hopen.
Qed.

(** While the menu is open, scrolling moves nothing: neither the page nor the
    remembered offset changes, however many scroll events and frames pass. *)
Theorem open_menu_freezes_header es p :
  Forall (λ e, MobileNav.scrolling e = true) es →
  MobileNav.isOpen (MobileNav.dom p) = true →
  MobileNav.dom (MobileNav.run es p) = MobileNav.dom p ∧
  MobileNav.lastY (MobileNav.state (MobileNav.run es p))
  = MobileNav.lastY (MobileNav.state p).
Proof.
  intros Hes. revert p. induction Hes as [|e es He _ IH]; intros p Hopen; [done|].
  cbn [MobileNav.run foldl].
  assert (Hstep : MobileNav.dom (MobileNav.dispatch e p) = MobileNav.dom p ∧
                  MobileNav.lastY (MobileNav.state (MobileNav.dispatch e p))
                  = MobileNav.lastY (MobileNav.state p)).
  { destruct e as [|t|key|t| |v|v]; try done; cbn [MobileNav.dispatch].
    - unfold MobileNav.scroll. by destruct (negb _).
    - cbn [MobileNav.dom MobileNav.state]. by apply frame_callbacks_open. }
  destruct Hstep as [Hd Hy].
  destruct (IH (MobileNav.dispatch e p)) as [IHd IHy]; [by rewrite Hd|].
  unfold MobileNav.run in *. by rewrite IHd, IHy.
Qed.

(** Scrolling in steps of less than ten pixels never hides the header: each
    step is measured from the one before, so the steps do not add up. *)
Theorem slow_scrolling_never_hides vs s d :
  MobileNav.isOpen d = false →
  MobileNav.slow (MobileNav.lastY s) vs →
  "is-down" ∉ header_classList d →
  "is-down" ∉ header_classList (MobileNav.scrolls vs (s, d)).2.
Proof.
  revert s d. induction vs as [|v vs IH]; intros s d Hopen Hslow Hd; [done|].
  destruct Hslow as [Hstep Hslow].
  cbn [MobileNav.scrolls foldl fst snd].
  assert (Hnext : ∃ d',
    MobileNav.onScroll v s d =
      ({| MobileNav.lastY := or_else (scrollY v) 0;
          MobileNav.ticking := MobileNav.ticking s |}, d') ∧
    MobileNav.isOpen d' = false ∧ "is-down" ∉ header_classList d').
  { unfold MobileNav.onScroll. rewrite Hopen. cbv zeta.
    case_bool_decide.
    - eexists. split; [done|]. split; [done|].
      unfold MobileNav.show_header, set_header_classList, classList_add,
        classList_remove. cbn [header_classList].
      rewrite elem_of_union, elem_of_difference, !elem_of_singleton.
      intros [[_ Hne]|Hne]; [by apply Hne|done].
    - rewrite bool_decide_eq_true_2 by done. by eexists. }
  destruct Hnext as (d' & -> & Hopen' & Hd').
  apply (IH _ d'); done.
Qed.

(** Near the top of the page (at most eight pixels down) and with the menu
    closed, a scroll event followed by an animation frame leaves the header
    shown. *)
Theorem header_shown_near_top p v :
  MobileNav.throttled p →
  MobileNav.isOpen (MobileNav.dom p) = false →
  (or_else (scrollY v) 0 ≤ 8)%Z →
  let d' := MobileNav.dom (MobileNav.run [MobileNav.Scroll; MobileNav.AnimationFrame v] p) in
  "is-up" ∈ header_classList d' ∧ "is-down" ∉ header_classList d'.
Proof.
  intros Hp Hopen Hy. cbv zeta.
  assert (Hone : ∀ q, MobileNav.dom q = MobileNav.dom p →
            MobileNav.dom (MobileNav.frame_callback v q) = MobileNav.show_header (MobileNav.dom p)).
  { intros q Hq. unfold MobileNav.frame_callback, MobileNav.onScroll.
    rewrite Hq, Hopen. cbv zeta. by rewrite bool_decide_eq_true_2. }
  assert (Hdom : MobileNav.dom (MobileNav.run [MobileNav.Scroll; MobileNav.AnimationFrame v] p)
                 = MobileNav.show_header (MobileNav.dom p)).
  { cbn [MobileNav.run foldl MobileNav.dispatch MobileNav.dom].
    unfold MobileNav.throttled in Hp. unfold MobileNav.scroll.
    destruct (MobileNav.ticking (MobileNav.state p)); cbn [negb].
    - rewrite Hp. by apply Hone.
    - cbn [MobileNav.frames]. rewrite Hp. by apply Hone. }
  rewrite Hdom. pose proof (show_header_direction (MobileNav.dom p)) as Hdir.
  unfold MobileNav.one_direction in Hdir.
  assert (Hup : "is-up" ∈ header_classList (MobileNav.show_header (MobileNav.dom p))).
  { unfold MobileNav.show_header, set_header_classList, classList_add.
    cbn [header_classList]. apply elem_of_union. right. by apply elem_of_singleton. }
  split; [done|by apply Hdir].
Qed.

(** * The sticky header (second script of src/sw.js) *)

Lemma updateHeader_ticking h v s d :
  StickyHeader.ticking (StickyHeader.updateHeader h v s d).1 = false.
Proof.
  unfold StickyHeader.updateHeader. cbv zeta.
  destruct (classList_contains _ _); [done|]. by case_bool_decide.
Qed.

Lemma updateHeader_open h v s d :
  MobileNav.isOpen d = true →
  StickyHeader.updateHeader h v s d =
  ({| StickyHeader.lastScrollTop := StickyHeader.lastScrollTop s;
      StickyHeader.ticking := false |}, d).
Proof.
  unfold MobileNav.isOpen, MobileNav.OPEN_CLASS, StickyHeader.updateHeader.
  intros Hopen. cbv zeta. by rewrite Hopen.
Qed.

Lemma sticky_frame_callback_state v p :
  StickyHeader.ticking (StickyHeader.state (StickyHeader.frame_callback v p)) = false ∧
  StickyHeader.frames (StickyHeader.frame_callback v p) = StickyHeader.frames p ∧
  StickyHeader.headerHeight (StickyHeader.frame_callback v p)
  = StickyHeader.headerHeight p.
Proof.
  unfold StickyHeader.frame_callback.
  pose proof (updateHeader_ticking (StickyHeader.headerHeight p) v
                (StickyHeader.state p) (StickyHeader.dom p)) as Ht.
  destruct (StickyHeader.updateHeader _ _ _ _) as [s' d']. done.
Qed.

Lemma sticky_frame_callbacks_state v n p :
  StickyHeader.frames (Nat.iter n (StickyHeader.frame_callback v) p)
  = StickyHeader.frames p ∧
  (n ≠ 0 →
   StickyHeader.ticking
     (StickyHeader.state (Nat.iter n (StickyHeader.frame_callback v) p)) = false).
Proof.
  induction n as [|n [IHf _]]; [done|]. rewrite Nat.iter_succ.
  destruct (sticky_frame_callback_state v
              (Nat.iter n (StickyHeader.frame_callback v) p)) as (Ht & Hf & _).
  split; [by rewrite Hf|done].
Qed.

Lemma sticky_dispatch_throttled e p :
  StickyHeader.throttled p → StickyHeader.throttled (StickyHeader.dispatch e p).
Proof.
  unfold StickyHeader.throttled. intros Hp.
  destruct e as [|v]; cbn [StickyHeader.dispatch StickyHeader.state
    StickyHeader.frames].
  - unfold StickyHeader.scroll.
    destruct (StickyHeader.ticking (StickyHeader.state p)) eqn:Ht;
      cbn [negb]; [by rewrite Ht|].
    cbn [StickyHeader.state StickyHeader.frames StickyHeader.ticking].
    by rewrite Hp.
  - destruct (StickyHeader.frames p) as [|n] eqn:Hn.
    + simpl. by destruct (StickyHeader.ticking (StickyHeader.state p)).
    + destruct (sticky_frame_callbacks_state v (S n) p) as [_ Ht]. by rewrite Ht.
Qed.

(** [updateHeader] resets [ticking] on each of its paths, so that, however
    many scroll events arrive, at most one call of it is queued for the next
    animation frame, and one is queued exactly while [ticking] is set. *)
Theorem sticky_scroll_events_are_throttled es h d :
  StickyHeader.throttled (StickyHeader.run es (StickyHeader.init h d)) ∧
  (StickyHeader.frames (StickyHeader.run es (StickyHeader.init h d)) ≤ 1)%nat.
Proof.
  assert (Hinv : StickyHeader.throttled (StickyHeader.run es (StickyHeader.init h d))).
  { generalize (StickyHeader.init h d)
      (eq_refl : StickyHeader.throttled (StickyHeader.init h d)).
    induction es as [|e es IH]; intros p Hp; [done|].
    cbn [StickyHeader.run foldl]. by apply IH, sticky_dispatch_throttled. }
  split; [done|]. unfold StickyHeader.throttled in Hinv. rewrite Hinv.
  destruct (StickyHeader.ticking _); lia.
Qed.

Lemma sticky_frame_callbacks_open v n p :
  MobileNav.isOpen (StickyHeader.dom p) = true →
  StickyHeader.dom (Nat.iter n (StickyHeader.frame_callback v) p)
  = StickyHeader.dom p ∧
  StickyHeader.lastScrollTop
    (StickyHeader.state (Nat.iter n (StickyHeader.frame_callback v) p))
  = StickyHeader.lastScrollTop (StickyHeader.state p).
Proof.
  intros Hopen. induction n as [|n [IHd IHy]]; [done|]. rewrite Nat.iter_succ.
  set (q := Nat.iter n (StickyHeader.frame_callback v) p) in *. clearbody q.
  unfold StickyHeader.frame_callback.
  rewrite updateHeader_open by (by rewrite IHd). done.
Qed.

(** While the menu of src/header.js is open, the sticky header does not move:
    neither the page nor the remembered offset changes, whatever the scroll
    events and frames. *)
Theorem open_menu_freezes_sticky_header es p :
  MobileNav.isOpen (StickyHeader.dom p) = true →
  StickyHeader.dom (StickyHeader.run es p) = StickyHeader.dom p ∧
  StickyHeader.lastScrollTop (StickyHeader.state (StickyHeader.run es p))
  = StickyHeader.lastScrollTop (StickyHeader.state p).
Proof.
  revert p. induction es as [|e es IH]; intros p Hopen; [done|].
  cbn [StickyHeader.run foldl].
  assert (Hstep : StickyHeader.dom (StickyHeader.dispatch e p) = StickyHeader.dom p ∧
                  StickyHeader.lastScrollTop (StickyHeader.state (StickyHeader.dispatch e p))
                  = StickyHeader.lastScrollTop (StickyHeader.state p)).
  { destruct e as [|v]; cbn [StickyHeader.dispatch].
    - unfold StickyHeader.scroll. by destruct (negb _).
    - cbn [StickyHeader.dom StickyHeader.state].
      by apply sticky_frame_callbacks_open. }
  destruct Hstep as [Hd Hy].
  destruct (IH (StickyHeader.dispatch e p)) as [IHd IHy]; [by rewrite Hd|].
  unfold StickyHeader.run in *. by rewrite IHd, IHy.
Qed.

(** With the menu closed, the offset remembered after a call of
    [updateHeader] is within [delta] of the offset it read. *)
Theorem sticky_offset_lags_by_delta_at_most h v s d :
  MobileNav.isOpen d = false →
  (Z.abs (StickyHeader.lastScrollTop (StickyHeader.updateHeader h v s d).1
          - StickyHeader.position v) ≤ StickyHeader.delta)%Z.
Proof.
  unfold MobileNav.isOpen, MobileNav.OPEN_CLASS, StickyHeader.updateHeader,
    StickyHeader.position, StickyHeader.delta.
  intros Hopen. cbv zeta. rewrite Hopen.
  case_bool_decide; cbn [fst StickyHeader.lastScrollTop]; lia.
Qed.

(** [updateHeader] never hides the header while the offset is at most the
    height of the header, and never shows it once the bottom of the document
    is in view. *)
Theorem sticky_header_kept_at_top_and_bottom h v s d :
  let d' := (StickyHeader.updateHeader h v s d).2 in
  ((StickyHeader.position v ≤ h)%Z →
   "nav-down" ∈ header_classList d' → "nav-down" ∈ header_classList d) ∧
  ((scrollHeight v ≤ StickyHeader.position v + innerHeight v)%Z →
   "nav-up" ∈ header_classList d' → "nav-up" ∈ header_classList d).
Proof.
  cbv zeta. unfold StickyHeader.updateHeader, StickyHeader.position.
  cbv zeta. destruct (classList_contains _ _); [done|].
  case_bool_decide; [done|]. cbn [snd].
  unfold set_header_classList, classList_add, classList_remove.
  split; intros Hpos; repeat case_bool_decide; cbn [andb header_classList];
    try done; try lia;
    rewrite elem_of_union, elem_of_difference, !elem_of_singleton;
    intros [[? _]|?]; done.
Qed.

Lemma updateHeader_cases h v s d :
  (StickyHeader.updateHeader h v s d).2 = d ∨
  (StickyHeader.updateHeader h v s d).2 = sticky_hidden d ∨
  (StickyHeader.updateHeader h v s d).2 = sticky_shown d.
Proof.
  unfold StickyHeader.updateHeader. cbv zeta.
  destruct (classList_contains _ _); [by left|].
  case_bool_decide; [by left|]. cbn [snd].
  destruct (_ && _); [right; by left|].
  case_bool_decide; [right; by right|by left].
Qed.

Lemma sticky_hidden_direction d : StickyHeader.one_direction (sticky_hidden d).
Proof.
  unfold StickyHeader.one_direction, sticky_hidden, set_header_classList,
    classList_add, classList_remove. cbn [header_classList].
  rewrite !elem_of_union, !elem_of_difference, !elem_of_singleton.
  split.
  - intros [[_ Hu]|Hu]; [by destruct Hu|done].
  - intros Hd. exfalso. apply Hd. by right.
Qed.

Lemma sticky_shown_direction d : StickyHeader.one_direction (sticky_shown d).
Proof.
  unfold StickyHeader.one_direction, sticky_shown, set_header_classList,
    classList_add, classList_remove. cbn [header_classList].
  rewrite !elem_of_union, !elem_of_difference, !elem_of_singleton.
  split; [|auto]. intros _ [[_ Hd]|Hd]; [by apply Hd|done].
Qed.

Lemma sticky_frame_callbacks_direction v n p :
  StickyHeader.one_direction (StickyHeader.dom p) →
  StickyHeader.one_direction
    (StickyHeader.dom (Nat.iter n (StickyHeader.frame_callback v) p)).
Proof.
  intros Hp. induction n as [|n IH]; [done|]. rewrite Nat.iter_succ.
  set (q := Nat.iter n (StickyHeader.frame_callback v) p) in *. clearbody q.
  unfold StickyHeader.frame_callback.
  destruct (updateHeader_cases (StickyHeader.headerHeight q) v
              (StickyHeader.state q) (StickyHeader.dom q)) as [Hd|[Hd|Hd]];
    destruct (StickyHeader.updateHeader _ _ _ _) as [s' d']; cbn [snd] in Hd;
    cbn [StickyHeader.dom]; subst d';
    [done|apply sticky_hidden_direction|apply sticky_shown_direction].
Qed.

(** On a page whose header does not start with [nav-down], the header carries
    exactly one of [nav-up] and [nav-down] from the start of the script on,
    whatever the scroll events and frames. *)
Theorem sticky_header_has_one_direction es h d :
  "nav-down" ∉ header_classList d →
  StickyHeader.one_direction
    (StickyHeader.dom (StickyHeader.run es (StickyHeader.init h d))).
Proof.
  intros Hd.
  assert (Hinit : StickyHeader.one_direction (StickyHeader.dom (StickyHeader.init h d))).
  { unfold StickyHeader.one_direction, StickyHeader.init, set_header_classList,
      classList_add.
    cbn [StickyHeader.dom header_classList].
    rewrite !elem_of_union, !elem_of_singleton. split; [|auto].
    intros _ [?|?]; done. }
  revert Hinit. generalize (StickyHeader.init h d).
  induction es as [|e es IH]; intros p Hp; [done|].
  cbn [StickyHeader.run foldl]. apply IH.
  destruct e as [|v]; cbn [StickyHeader.dispatch].
  - unfold StickyHeader.scroll. by destruct (negb _).
  - cbn [StickyHeader.dom]. by apply sticky_frame_callbacks_direction.
Qed.

Lemma updates_within_delta h vs s d :
  MobileNav.isOpen d = false →
  Forall (λ u, (Z.abs (StickyHeader.lastScrollTop s - StickyHeader.position u)
                ≤ StickyHeader.delta)%Z) vs →
  ∃ t, StickyHeader.updates h vs (s, d) =
       ({| StickyHeader.lastScrollTop := StickyHeader.lastScrollTop s;
           StickyHeader.ticking := t |}, d).
Proof.
  intros Hopen Hvs. revert s Hvs.
  induction vs as [|u vs IH]; intros s Hvs.
  - exists (StickyHeader.ticking s). by destruct s.
  - apply Forall_cons in Hvs as [Hu Hvs].
    cbn [StickyHeader.updates foldl fst snd].
    assert (Hstep : StickyHeader.updateHeader h u s d =
              ({| StickyHeader.lastScrollTop := StickyHeader.lastScrollTop s;
                  StickyHeader.ticking := false |}, d)).
    { unfold MobileNav.isOpen, MobileNav.OPEN_CLASS in Hopen.
      unfold StickyHeader.updateHeader. cbv zeta. rewrite Hopen.
      unfold StickyHeader.position in Hu. by rewrite bool_decide_eq_true_2. }
    rewrite Hstep.
    destruct (IH {| StickyHeader.lastScrollTop := StickyHeader.lastScrollTop s;
                    StickyHeader.ticking := false |} Hvs) as [t Ht].
    exists t. exact Ht.
Qed.

(** Steps of at most [delta] pixels are not forgotten: the offset they are
    measured from stays where it was, and the first offset more than [delta]
    below it, past the height of the header, hides the header. *)
Theorem sticky_small_steps_add_up h vs v s d :
  MobileNav.isOpen d = false →
  Forall (λ u, (Z.abs (StickyHeader.lastScrollTop s - StickyHeader.position u)
                ≤ StickyHeader.delta)%Z) vs →
  (StickyHeader.position v > StickyHeader.lastScrollTop s + StickyHeader.delta)%Z →
  (StickyHeader.position v > h)%Z →
  let sd := StickyHeader.updates h (vs ++ [v]) (s, d) in
  "nav-down" ∈ header_classList sd.2 ∧
  ("nav-up" ∉ header_classList sd.2) ∧
  StickyHeader.lastScrollTop sd.1 = StickyHeader.position v.
Proof.
  intros Hopen Hvs Hfar Hpast. cbv zeta.
  destruct (updates_within_delta h vs s d Hopen Hvs) as [t Hsame].
  unfold StickyHeader.updates in *. rewrite foldl_app, Hsame.
  cbn [foldl fst snd].
  unfold MobileNav.isOpen, MobileNav.OPEN_CLASS in Hopen.
  unfold StickyHeader.updateHeader, StickyHeader.position, StickyHeader.delta in *.
  cbv zeta. rewrite Hopen. cbn [StickyHeader.lastScrollTop].
  rewrite bool_decide_eq_false_2 by lia.
  rewrite !bool_decide_eq_true_2 by lia. cbn [andb fst snd].
  unfold set_header_classList, classList_add, classList_remove.
  cbn [header_classList StickyHeader.lastScrollTop].
  rewrite !elem_of_union, !elem_of_difference, !elem_of_singleton.
  split; [by right|]. split; [|done].
  intros [[_ Hne]|Hne]; [by apply Hne|done].
Qed.

(** * The further properties on the sample worlds and pages *)

Ltac compute_each :=
  vm_compute; repeat split; first [reflexivity | discriminate | by intros ?].

Lemma install_keeps_other_caches_witness :
  let w := mkWorld origin_team_unreachable stale_storage [] in
  "ctc-static-v0" ≠ CACHE_NAME ∧
  caches (on_install site w).2 !! "ctc-static-v0" = caches w !! "ctc-static-v0".
Proof.
  cbv zeta.
  assert (Hne : "ctc-static-v0" ≠ CACHE_NAME) by discriminate.
  split; [exact Hne|].
  exact (install_keeps_other_caches site
           (mkWorld origin_team_unreachable stale_storage []) "ctc-static-v0" Hne).
Defined.

Lemma offline_core_page_is_installed_copy_witness :
  let w0 := mkWorld origin_up stale_storage [] in
  let w := mkWorld origin_down (caches activated_world) [] in
  on_install site w0 = (Fulfilled (), installed_world) ∧
  query_free (cache_of (caches w0) CACHE_NAME) ∧
  caches w !! CACHE_NAME = caches installed_world !! CACHE_NAME ∧
  "/about/" ∈ CORE_ASSETS ∧
  network w (GET "/about/" "?x=1") = None ∧
  (on_fetch site (GET "/about/" "?x=1") w).1 =
    RespondWith (Fulfilled (Some (mkResponse 200 "/about/"))).
Proof.
  cbv zeta.
  assert (Hinst : on_install site (mkWorld origin_up stale_storage [])
                  = (Fulfilled (), installed_world))
    by (vm_compute; reflexivity).
  assert (Hfree : query_free
            (cache_of (caches (mkWorld origin_up stale_storage [])) CACHE_NAME))
    by (vm_compute; constructor).
  assert (Hgen : caches (mkWorld origin_down (caches activated_world) [])
                   !! CACHE_NAME = caches installed_world !! CACHE_NAME)
    by (vm_compute; reflexivity).
  assert (Hp : "/about/" ∈ CORE_ASSETS) by by_computation.
  split; [exact Hinst|]. split; [exact Hfree|]. split; [exact Hgen|].
  split; [exact Hp|]. split; [reflexivity|].
  exact (proj1 (offline_core_page_is_installed_copy site _ _
                  (mkWorld origin_down (caches activated_world) [])
                  "/about/" "?x=1" Hinst Hfree Hgen Hp eq_refl)).
Defined.

Lemma offline_other_page_is_offline_document_witness :
  let w0 := mkWorld origin_up stale_storage [] in
  let w := mkWorld origin_down (caches activated_world) [] in
  let req := mkRequest "GET" (mkURL "https://cdn.example" "/about/" "") in
  on_install site w0 = (Fulfilled (), installed_world) ∧
  cache_of (caches w0) CACHE_NAME = [] ∧
  caches w !! CACHE_NAME = caches installed_world !! CACHE_NAME ∧
  method req = "GET" ∧
  network w req = None ∧
  ¬ (origin (url req) = site ∧ pathname (url req) ∈ CORE_ASSETS) ∧
  (on_fetch site req w).1 =
    RespondWith (Fulfilled (Some (mkResponse 200 "/offline.html"))).
Proof.
  cbv zeta.
  assert (Hinst : on_install site (mkWorld origin_up stale_storage [])
                  = (Fulfilled (), installed_world))
    by (vm_compute; reflexivity).
  assert (Hempty : cache_of (caches (mkWorld origin_up stale_storage []))
                     CACHE_NAME = [])
    by (vm_compute; reflexivity).
  assert (Hgen : caches (mkWorld origin_down (caches activated_world) [])
                   !! CACHE_NAME = caches installed_world !! CACHE_NAME)
    by (vm_compute; reflexivity).
  assert (Hother : ¬ (origin (url (mkRequest "GET"
                                     (mkURL "https://cdn.example" "/about/" "")))
                      = site ∧
                      pathname (url (mkRequest "GET"
                                       (mkURL "https://cdn.example" "/about/" "")))
                      ∈ CORE_ASSETS))
    by (intros [Ho _]; discriminate Ho).
  split; [exact Hinst|]. split; [exact Hempty|]. split; [exact Hgen|].
  split; [reflexivity|]. split; [reflexivity|]. split; [exact Hother|].
  exact (proj1 (offline_other_page_is_offline_document site _ _
                  (mkWorld origin_down (caches activated_world) [])
                  (mkRequest "GET" (mkURL "https://cdn.example" "/about/" ""))
                  Hinst Hempty Hgen eq_refl eq_refl Hother)).
Defined.

Lemma installed_worker_responds_forever_witness :
  let w0 := mkWorld origin_up stale_storage [] in
  let es := [Activate; FetchEvent (GET "/events/" ""); NetworkChange origin_down;
             FetchEvent (GET "/missing" "")] in
  on_install site w0 = (Fulfilled (), installed_world) ∧
  method (GET "/contact/" "") = "GET" ∧
  network (run site es installed_world) (GET "/contact/" "") = None ∧
  ∃ r, (on_fetch site (GET "/contact/" "") (run site es installed_world)).1
       = RespondWith (Fulfilled (Some r)).
Proof.
  cbv zeta.
  assert (Hinst : on_install site (mkWorld origin_up stale_storage [])
                  = (Fulfilled (), installed_world))
    by (vm_compute; reflexivity).
  split; [exact Hinst|]. split; [reflexivity|]. split; [reflexivity|].
  exact (installed_worker_responds_forever site _ _
           [Activate; FetchEvent (GET "/events/" ""); NetworkChange origin_down;
            FetchEvent (GET "/missing" "")]
           (GET "/contact/" "") Hinst eq_refl eq_refl).
Defined.

Lemma offline_answer_ignores_query_witness :
  let w := mkWorld origin_down (caches activated_world) [] in
  method (GET "/team/" "?a=1") = "GET" ∧ method (GET "/team/" "?b=2") = "GET" ∧
  origin (url (GET "/team/" "?a=1")) = origin (url (GET "/team/" "?b=2")) ∧
  pathname (url (GET "/team/" "?a=1")) = pathname (url (GET "/team/" "?b=2")) ∧
  network w (GET "/team/" "?a=1") = None ∧ network w (GET "/team/" "?b=2") = None ∧
  (on_fetch site (GET "/team/" "?a=1") w).1 = (on_fetch site (GET "/team/" "?b=2") w).1.
Proof.
  cbv zeta. repeat (split; [reflexivity|]).
  exact (offline_answer_ignores_query site
           (mkWorld origin_down (caches activated_world) [])
           (GET "/team/" "?a=1") (GET "/team/" "?b=2")
           eq_refl eq_refl eq_refl eq_refl eq_refl eq_refl).
Defined.

Lemma offline_answer_is_stored_witness :
  let w := mkWorld origin_down (caches activated_world) [] in
  network w (GET "/missing" "") = None ∧
  (on_fetch site (GET "/missing" "") w).1 =
    RespondWith (Fulfilled (Some (mkResponse 200 "/offline.html"))) ∧
  ∃ e, e ∈ cache_of (caches w) CACHE_NAME ∧ e.2 = mkResponse 200 "/offline.html".
Proof.
  cbv zeta.
  assert (Hout : (on_fetch site (GET "/missing" "")
                    (mkWorld origin_down (caches activated_world) [])).1 =
                 RespondWith (Fulfilled (Some (mkResponse 200 "/offline.html"))))
    by (vm_compute; reflexivity).
  split; [reflexivity|]. split; [exact Hout|].
  destruct (offline_answer_is_stored site
              (mkWorld origin_down (caches activated_world) [])
              (GET "/missing" "") _ eq_refl Hout) as (e & Hin & Hr & _).
  exists e. split; [exact Hin|exact Hr].
Defined.

Lemma menu_attributes_stay_consistent_witness :
  let es := [MobileNav.ToggleClick; MobileNav.Scroll;
             MobileNav.AnimationFrame (at_offset 120); MobileNav.KeyDown "Escape"] in
  MobileNav.aria_consistent closed_page ∧
  MobileNav.aria_consistent
    (MobileNav.dom (MobileNav.run es (MobileNav.init (at_offset 0) closed_page))).
Proof.
  cbv zeta.
  assert (Hc : MobileNav.aria_consistent
                 (MobileNav.dom (MobileNav.init (at_offset 0) closed_page)))
    by compute_each.
  split; [compute_each|].
  exact (menu_attributes_stay_consistent _ _ Hc).
Defined.

Lemma only_the_toggle_opens_witness :
  let p := MobileNav.init (at_offset 0) open_page in
  MobileNav.Resize (at_offset 0) ≠ MobileNav.ToggleClick ∧
  MobileNav.isOpen (MobileNav.dom (MobileNav.dispatch (MobileNav.Resize (at_offset 0)) p))
  = true ∧
  MobileNav.isOpen (MobileNav.dom p) = true.
Proof.
  cbv zeta.
  assert (Hne : MobileNav.Resize (at_offset 0) ≠ MobileNav.ToggleClick)
    by discriminate.
  assert (Hafter : MobileNav.isOpen
            (MobileNav.dom (MobileNav.dispatch (MobileNav.Resize (at_offset 0))
                              (MobileNav.init (at_offset 0) open_page))) = true)
    by (vm_compute; reflexivity).
  split; [exact Hne|]. split; [exact Hafter|].
  exact (only_the_toggle_opens _ _ Hne Hafter).
Defined.

Lemma toggle_twice_restores_witness :
  MobileNav.aria_consistent closed_page ∧
  MobileNav.toggle_click (MobileNav.toggle_click closed_page) = closed_page.
Proof.
  assert (Hc : MobileNav.aria_consistent closed_page) by compute_each.
  split; [exact Hc|exact (toggle_twice_restores closed_page Hc)].
Defined.

Lemma header_has_one_direction_witness :
  let es := [MobileNav.Scroll; MobileNav.AnimationFrame (at_offset 300);
             MobileNav.Scroll; MobileNav.AnimationFrame (at_offset 100)] in
  ("is-down" ∉ header_classList closed_page) ∧
  MobileNav.one_direction
    (MobileNav.dom (MobileNav.run es (MobileNav.init (at_offset 0) closed_page))).
Proof.
  cbv zeta.
  assert (Hd : "is-down" ∉ header_classList closed_page) by by_computation.
  split; [exact Hd|].
  exact (header_has_one_direction _ (at_offset 0) closed_page Hd).
Defined.

Lemma open_menu_freezes_header_witness :
  let es := [MobileNav.Scroll; MobileNav.AnimationFrame (at_offset 300)] in
  let p := MobileNav.init (at_offset 0) open_page in
  Forall (λ e, MobileNav.scrolling e = true) es ∧
  MobileNav.isOpen (MobileNav.dom p) = true ∧
  MobileNav.dom (MobileNav.run es p) = MobileNav.dom p.
Proof.
  cbv zeta.
  assert (Hes : Forall (λ e, MobileNav.scrolling e = true)
                  [MobileNav.Scroll; MobileNav.AnimationFrame (at_offset 300)])
    by (repeat constructor).
  assert (Hopen : MobileNav.isOpen
                    (MobileNav.dom (MobileNav.init (at_offset 0) open_page)) = true)
    by (vm_compute; reflexivity).
  split; [exact Hes|]. split; [exact Hopen|].
  exact (proj1 (open_menu_freezes_header _ _ Hes Hopen)).
Defined.

Lemma slow_scrolling_never_hides_witness :
  let vs := [at_offset 9; at_offset 18; at_offset 27; at_offset 36] in
  let s := MobileNav.mkState 0 false in
  MobileNav.isOpen closed_page = false ∧
  MobileNav.slow (MobileNav.lastY s) vs ∧
  ("is-down" ∉ header_classList closed_page) ∧
  "is-down" ∉ header_classList (MobileNav.scrolls vs (s, closed_page)).2.
Proof.
  cbv zeta.
  assert (Hopen : MobileNav.isOpen closed_page = false) by (vm_compute; reflexivity).
  assert (Hslow : MobileNav.slow (MobileNav.lastY (MobileNav.mkState 0 false))
                    [at_offset 9; at_offset 18; at_offset 27; at_offset 36])
    by compute_each.
  assert (Hd : "is-down" ∉ header_classList closed_page) by by_computation.
  split; [exact Hopen|]. split; [exact Hslow|]. split; [exact Hd|].
  exact (slow_scrolling_never_hides _ _ _ Hopen Hslow Hd).
Defined.

Lemma header_shown_near_top_witness :
  let p := MobileNav.run [MobileNav.Scroll; MobileNav.AnimationFrame (at_offset 300)]
             (MobileNav.init (at_offset 0) closed_page) in
  MobileNav.throttled p ∧
  MobileNav.isOpen (MobileNav.dom p) = false ∧
  (or_else (scrollY (at_offset 5)) 0 ≤ 8)%Z ∧
  "is-down" ∈ header_classList (MobileNav.dom p) ∧
  "is-down" ∉ header_classList
    (MobileNav.dom (MobileNav.run [MobileNav.Scroll; MobileNav.AnimationFrame (at_offset 5)] p)).
Proof.
  cbv zeta.
  set (p := MobileNav.run [MobileNav.Scroll; MobileNav.AnimationFrame (at_offset 300)]
              (MobileNav.init (at_offset 0) closed_page)).
  assert (Hp : MobileNav.throttled p) by (vm_compute; reflexivity).
  assert (Hopen : MobileNav.isOpen (MobileNav.dom p) = false)
    by (vm_compute; reflexivity).
  assert (Hy : (or_else (scrollY (at_offset 5)) 0 ≤ 8)%Z) by compute_each.
  split; [exact Hp|]. split; [exact Hopen|]. split; [exact Hy|].
  split; [by_computation|].
  exact (proj2 (header_shown_near_top p (at_offset 5) Hp Hopen Hy)).
Defined.

Lemma open_menu_freezes_sticky_header_witness :
  let es := [StickyHeader.Scroll; StickyHeader.AnimationFrame (at_offset 300)] in
  let p := StickyHeader.init 64 open_page in
  MobileNav.isOpen (StickyHeader.dom p) = true ∧
  StickyHeader.dom (StickyHeader.run es p) = StickyHeader.dom p.
Proof.
  cbv zeta.
  assert (Hopen : MobileNav.isOpen (StickyHeader.dom (StickyHeader.init 64 open_page))
                  = true)
    by (vm_compute; reflexivity).
  split; [exact Hopen|].
  exact (proj1 (open_menu_freezes_sticky_header
                  [StickyHeader.Scroll; StickyHeader.AnimationFrame (at_offset 300)]
                  _ Hopen)).
Defined.

Lemma sticky_offset_lags_by_delta_at_most_witness :
  let s := StickyHeader.mkState 100 true in
  MobileNav.isOpen closed_page = false ∧
  (Z.abs (StickyHeader.lastScrollTop
            (StickyHeader.updateHeader 64 (at_offset 103) s closed_page).1
          - StickyHeader.position (at_offset 103)) ≤ StickyHeader.delta)%Z.
Proof.
  cbv zeta.
  assert (Hopen : MobileNav.isOpen closed_page = false) by (vm_compute; reflexivity).
  split; [exact Hopen|].
  exact (sticky_offset_lags_by_delta_at_most 64 (at_offset 103)
           (StickyHeader.mkState 100 true) closed_page Hopen).
Defined.

Lemma sticky_header_has_one_direction_witness :
  let es := [StickyHeader.Scroll; StickyHeader.AnimationFrame (at_offset 300);
             StickyHeader.Scroll; StickyHeader.AnimationFrame (at_offset 100)] in
  ("nav-down" ∉ header_classList closed_page) ∧
  StickyHeader.one_direction
    (StickyHeader.dom (StickyHeader.run es (StickyHeader.init 64 closed_page))).
Proof.
  cbv zeta.
  assert (Hd : "nav-down" ∉ header_classList closed_page) by by_computation.
  split; [exact Hd|].
  exact (sticky_header_has_one_direction _ 64 closed_page Hd).
Defined.

Lemma sticky_small_steps_add_up_witness :
  let vs := [at_offset 103; at_offset 105] in
  let s := StickyHeader.mkState 100 false in
  MobileNav.isOpen closed_page = false ∧
  Forall (λ u, (Z.abs (StickyHeader.lastScrollTop s - StickyHeader.position u)
                ≤ StickyHeader.delta)%Z) vs ∧
  (StickyHeader.position (at_offset 108)
   > StickyHeader.lastScrollTop s + StickyHeader.delta)%Z ∧
  (StickyHeader.position (at_offset 108) > 64)%Z ∧
  "nav-down" ∈ header_classList
    (StickyHeader.updates 64 (vs ++ [at_offset 108]) (s, closed_page)).2.
Proof.
  cbv zeta.
  assert (Hopen : MobileNav.isOpen closed_page = false) by (vm_compute; reflexivity).
  assert (Hvs : Forall (λ u, (Z.abs (StickyHeader.lastScrollTop
                                       (StickyHeader.mkState 100 false)
                                     - StickyHeader.position u)
                              ≤ StickyHeader.delta)%Z)
                  [at_offset 103; at_offset 105])
    by (repeat constructor; compute_each).
  assert (Hfar : (StickyHeader.position (at_offset 108)
                  > StickyHeader.lastScrollTop (StickyHeader.mkState 100 false)
                    + StickyHeader.delta)%Z) by compute_each.
  assert (Hpast : (StickyHeader.position (at_offset 108) > 64)%Z) by compute_each.
  split; [exact Hopen|]. split; [exact Hvs|]. split; [exact Hfar|].
  split; [exact Hpast|].
  exact (proj1 (sticky_small_steps_add_up 64 _ (at_offset 108) _ closed_page
                  Hopen Hvs Hfar Hpast)).
Defined.
